(** * fastaudio: spectrogram augmentations ([fastaudio/augment/spectrogram.py])

    A shallow embedding of the transforms [CropTime], [_tfm_pad_spectro],
    [MaskFreq], [MaskTime], [SGRoll], [_torchdelta] and [Delta], together
    with the properties that the specification states about them.

    Conventions.
    - A tensor carries its shape next to its cells, as a torch tensor does,
      so that shapes with an empty axis stay distinguishable.
    - Python integers are [Z].  A Python float is the rational ([Q]) it
      stands for, and every float operation met here (the division of two
      ints in [CropTime.encodes], the conversion of an int and the products
      in [SGRoll.encodes]) rounds its exact result to the nearest binary64
      value, ties to even ([round64]).  Infinities and NaN are not values
      of the model: a result beyond the float range is told by [overflows],
      and the operation that meets one raises [OverflowError].
    - The process-wide [random] module is an explicit tape of naturals that
      the sampling functions consume.
    - Exceptions are values of [error]; a computation is a function from the
      tape to either a raised error or a value and the remaining tape. *)

From Stdlib Require Import ZArith QArith Ascii String List Lia.
From stdpp Require Import base tactics option list.

Open Scope Z_scope.

(** ** Exceptions *)

Inductive error : Type :=
  (* random.randint(a, b) with b < a: "empty range for randrange()" *)
  | ValueError_empty_range (a b : Z)
  (* _tfm_pad_spectro: "pad_mode {pad_m} not currently supported, ..." *)
  | ValueError_pad_mode (pad_m : string)
  (* MaskFreq.encodes: "Start value '{start}' out of range for
     AudioSpectrogram of shape {sg.shape}" *)
  | ValueError_start_range (start : Z) (shape : nat * nat * nat)
  (* SGRoll.__init__: "Direction must be -1(left) 0(bidirectional) or 1(right)" *)
  | ValueError_direction
  (* _torchdelta: "Delta not possible with current settings, inputs must be
     wider than {width} columns, ..." *)
  | ValueError_delta (width : Z)
  (* integer or float division by zero *)
  | ZeroDivisionError
  (* a float result beyond the binary64 range: "integer division result
     too large for a float", "cannot convert float infinity to integer" *)
  | OverflowError
  (* errors raised inside torch: negative dimension, shapes that do not
     broadcast, torch.cat of an empty list *)
  | RuntimeError
  (* any error raised inside librosa.feature.delta *)
  | ParameterError.

Inductive result (X : Type) : Type :=
  | Ok (x : X)
  | Raise (e : error).
Arguments Ok {X} x.
Arguments Raise {X} e.

(** ** The random tape and the computation monad *)

Definition tape := list N.

Definition M (X : Type) : Type := tape -> result (X * tape).

Definition ret {X} (x : X) : M X := fun tp => Ok (x, tp).

Definition raise {X} (e : error) : M X := fun _ => Raise e.

Definition bind {X Y} (m : M X) (k : X -> M Y) : M Y :=
  fun tp => match m tp with
            | Ok (x, tp') => k x tp'
            | Raise e => Raise e
            end.

Definition lift {X} (r : result X) : M X :=
  fun tp => match r with
            | Ok x => Ok (x, tp)
            | Raise e => Raise e
            end.

Declare Scope py_scope.
Delimit Scope py_scope with py.
Notation "'let*' x ':=' m 'in' k" := (bind m (fun x => k))
  (at level 10, x name, m at level 100, k at level 200) : py_scope.
Open Scope py_scope.

(** The next raw draw; an exhausted tape keeps giving 0. *)
Definition draw : M N :=
  fun tp => match tp with
            | [] => Ok (0%N, [])
            | n :: tp' => Ok (n, tp')
            end.

(** [random.randint(a, b)]: an integer of [[a, b]], ValueError when the
    range is empty. *)
Definition randint (a b : Z) : M Z :=
  if b <? a then raise (ValueError_empty_range a b)
  else let* n := draw in ret (a + Z.of_N n mod (b - a + 1)).

(** [random.random()]: a float of [[0, 1)], a multiple of 2^-53. *)
Definition random_random : M Q :=
  let* n := draw in ret (Qmake (Z.of_N n mod 9007199254740992) 9007199254740992).

(** [random.choice([-1, 1])]. *)
Definition random_choice_dir : M Z :=
  let* n := draw in ret (if N.even n then -1 else 1).

(** [ifnone(a, b)] of fastcore: [b] if [a] is None, else [a].  Both
    arguments are evaluated by the caller before the call. *)
Definition ifnone {X} (a : option X) (b : X) : X :=
  match a with
  | Some v => v
  | None => b
  end.

(** ** Strings: [str.lower] on the ASCII range *)

Definition lower_ascii (c : ascii) : ascii :=
  let n := nat_of_ascii c in
  if (65 <=? n)%nat && (n <=? 90)%nat then ascii_of_nat (n + 32) else c.

Fixpoint lower (s : string) : string :=
  match s with
  | EmptyString => EmptyString
  | String c s' => String (lower_ascii c) (lower s')
  end.

(** ** Python numbers and slices *)

Inductive pynum : Type :=
  | PyInt (z : Z)
  | PyFloat (q : Q).

(** [int(x)]: truncation toward zero. *)
Definition py_int (v : pynum) : Z :=
  match v with
  | PyInt z => z
  | PyFloat q => Z.quot (Qnum q) (Zpos (Qden q))
  end.

(** The integer nearest to [num / den], for [0 <= num] and [0 < den];
    a tie goes to the even neighbour. *)
Definition round_half_even (num den : Z) : Z :=
  let q := num / den in
  let r := num mod den in
  if 2 * r <? den then q
  else if den <? 2 * r then q + 1
  else if Z.even q then q else q + 1.

(** The exponent [e] of the last place of the binary64 value of [n / d]
    ([0 < n], [0 < d]): the significand [n / (d * 2 ^ e)] has 53 bits,
    unless that would take [e] below that of the subnormals, -1074. *)
Definition ulp_exponent (n d : Z) : Z :=
  let e1 := Z.log2 n - Z.log2 d - 53 in
  let below :=
    if 0 <=? e1 then n <? 2 ^ 53 * d * 2 ^ e1
    else n * 2 ^ (- e1) <? 2 ^ 53 * d in
  Z.max (if below then e1 else e1 + 1) (-1074).

(** The binary64 value nearest to the rational [q], ties to even.  The
    exponent is not bounded above here: [overflows] tells the results
    that a float cannot hold. *)
Definition round64 (q : Q) : Q :=
  let n := Z.abs (Qnum q) in
  let d := Zpos (Qden q) in
  if n =? 0 then 0%Q
  else
    let e := ulp_exponent n d in
    if 0 <? e
    then inject_Z (Z.sgn (Qnum q) * (round_half_even n (d * 2 ^ e) * 2 ^ e))
    else Qmake (Z.sgn (Qnum q) * round_half_even (n * 2 ^ (- e)) d)
               (Z.to_pos (2 ^ (- e))).

(** A rounded result of magnitude 2^1024 or more is beyond the largest
    float: the operation yields an infinity, or raises. *)
Definition overflows (q : Q) : bool :=
  2 ^ 1024 * Zpos (Qden q) <=? Z.abs (Qnum q).

(** [|q| <= z], read on the numerator and the denominator. *)
Definition within (q : Q) (z : Z) : Prop :=
  Z.abs (Qnum q) <= z * Zpos (Qden q).

(** [float(x)] for an operand of a float operation.  An int is rounded;
    the ints converted in this module are a tensor width and a direction
    that the constructor has checked, both far inside the float range,
    so the OverflowError of a larger int is not modelled. *)
Definition py_float (v : pynum) : Q :=
  match v with
  | PyInt z => round64 (inject_Z z)
  | PyFloat q => q
  end.

(** [a * b] on two floats. *)
Definition fmul (a b : Q) : Q := round64 (a * b).

(** [a / b] on two ints: the exact quotient, rounded once. *)
Definition truediv (a b : Z) : result Q :=
  if b =? 0 then Raise ZeroDivisionError
  else
    let q := round64 (inject_Z a / inject_Z b) in
    if overflows q then Raise OverflowError else Ok q.

Definition py_to_Q (v : pynum) : Q :=
  match v with
  | PyInt z => inject_Z z
  | PyFloat q => q
  end.

(** [x == 0]. *)
Definition py_is_zero (v : pynum) : bool := Qeq_bool (py_to_Q v) 0.

(** A slice bound [i] on an axis of length [len]: negative bounds count
    from the end, and the bound is clipped to [[0, len]]. *)
Definition slice_index (len i : Z) : Z :=
  if i <? 0 then Z.max 0 (i + len) else Z.min i len.

(** ** Tensors *)

Record Tensor (A : Type) : Type := mkTensor {
  size0 : nat;                      (* channels *)
  size1 : nat;                      (* frequency bins *)
  size2 : nat;                      (* time frames *)
  cells : list (list (list A))
}.
Arguments mkTensor {A} _ _ _ _.
Arguments size0 {A} _.
Arguments size1 {A} _.
Arguments size2 {A} _.
Arguments cells {A} _.

(** A two-dimensional tensor, as obtained by iterating over a
    spectrogram: one channel, of shape (frequency, time). *)
Record Plane (A : Type) : Type := mkPlane {
  prows : nat;
  pcols : nat;
  entries : list (list A)
}.
Arguments mkPlane {A} _ _ _.
Arguments prows {A} _.
Arguments pcols {A} _.
Arguments entries {A} _.

(** Modelled from the spec: the class [AudioSpectrogram] of
    [fastaudio.core], which the transforms import.  A spectrogram is a
    3-dimensional tensor with axes (channel, frequency, time) that carries
    two scalar settings, the sample rate [sr] and the hop length
    [hop_length]. *)
Record AudioSpectrogram (A : Type) : Type := mkSpectrogram {
  sr : Z;
  hop_length : Z;
  data : Tensor A
}.
Arguments mkSpectrogram {A} _ _ _.
Arguments sr {A} _.
Arguments hop_length {A} _.
Arguments data {A} _.

Section Tensors.
Context {A : Type}.

Definition shape (t : Tensor A) : nat * nat * nat :=
  (size0 t, size1 t, size2 t).

(** [sg.data = t] *)
Definition set_data (sg : AudioSpectrogram A) (t : Tensor A)
  : AudioSpectrogram A :=
  mkSpectrogram (sr sg) (hop_length sg) t.

(** The cells agree with the recorded shape. *)
Definition rect_rows (ny nx : nat) (ch : list (list A)) : Prop :=
  length ch = ny /\ Forall (fun row => length row = nx) ch.

Definition rect (t : Tensor A) : Prop :=
  length (cells t) = size0 t /\
  Forall (rect_rows (size1 t) (size2 t)) (cells t).

Definition rect_plane (p : Plane A) : Prop :=
  rect_rows (prows p) (pcols p) (entries p).

(** [t[c, f, x]] *)
Definition at3 (t : Tensor A) (c f x : nat) : option A :=
  match cells t !! c with
  | Some ch => match ch !! f with
               | Some row => row !! x
               | None => None
               end
  | None => None
  end.

(** [torch.zeros((c, y, w))] for a given zero element. *)
Definition zeros (zero : A) (c y w : nat) : Tensor A :=
  mkTensor c y w (replicate c (replicate y (replicate w zero))).

(** [t[:, :, start:stop]] *)
Definition slice_time (t : Tensor A) (start stop : Z) : Tensor A :=
  let len := Z.of_nat (size2 t) in
  let a := slice_index len start in
  let b := slice_index len stop in
  let w := Z.to_nat (b - a) in
  mkTensor (size0 t) (size1 t) w
    (map (map (fun row => take w (drop (Z.to_nat a) row))) (cells t)).

(** [padded[:, :, start:start+x] = src], for a source of [x] frames
    that fits. *)
Definition assign_time (padded : Tensor A) (start : nat) (src : Tensor A)
  : Tensor A :=
  mkTensor (size0 padded) (size1 padded) (size2 padded)
    (zip_with
       (zip_with (fun prow srow =>
          take start prow ++ srow ++ drop (start + length srow) prow))
       (cells padded) (cells src)).

(** [t.repeat(1, 1, reps)] *)
Definition tile_time (t : Tensor A) (reps : nat) : Tensor A :=
  mkTensor (size0 t) (size1 t) (reps * size2 t)
    (map (map (fun row => concat (replicate reps row))) (cells t)).

(** [torch.einsum("...ij->...ji", t)] *)
Fixpoint transpose_rows (nx : nat) (rows : list (list A))
  : list (list A) :=
  match rows with
  | [] => replicate nx []
  | r :: rs => zip_with cons r (transpose_rows nx rs)
  end.

Definition transposed (t : Tensor A) : Tensor A :=
  mkTensor (size0 t) (size2 t) (size1 t)
    (map (transpose_rows (size2 t)) (cells t)).

(** [t.roll(k, dims=-1)]: frame [i] of the result is frame
    [(i - k) mod n] of [t]. *)
Definition roll_row (k : Z) (row : list A) : list A :=
  let n := length row in
  let s := Z.to_nat (k mod Z.of_nat n) in
  drop (n - s) row ++ take (n - s) row.

Definition roll (k : Z) (t : Tensor A) : Tensor A :=
  mkTensor (size0 t) (size1 t) (size2 t)
    (map (map (roll_row k)) (cells t)).

(** Iterating over a tensor yields its channels. *)
Definition planes (t : Tensor A) : list (Plane A) :=
  map (mkPlane (size1 t) (size2 t)) (cells t).

Definition same_shape (p q : Plane A) : bool :=
  (prows p =? prows q)%nat && (pcols p =? pcols q)%nat.

(** [torch.stack(ps)] *)
Definition stack (ps : list (Plane A)) : result (Tensor A) :=
  match ps with
  | [] => Raise RuntimeError
  | p :: _ =>
      if forallb (same_shape p) ps
      then Ok (mkTensor (length ps) (prows p) (pcols p) (map entries ps))
      else Raise RuntimeError
  end.

(** [torch.cat(ts, dim=0)] *)
Definition cat (ts : list (Tensor A)) : result (Tensor A) :=
  match ts with
  | [] => Raise RuntimeError
  | t :: _ =>
      if forallb (fun u => (size1 u =? size1 t)%nat
                           && (size2 u =? size2 t)%nat) ts
      then Ok (mkTensor (list_sum (map size0 ts)) (size1 t) (size2 t)
                        (concat (map cells ts)))
      else Raise RuntimeError
  end.

(** Sequencing of fallible steps over a list, left to right. *)
Fixpoint map_result {X Y} (f : X -> result Y) (xs : list X)
  : result (list Y) :=
  match xs with
  | [] => Ok []
  | x :: xs' =>
      match f x with
      | Raise e => Raise e
      | Ok y => match map_result f xs' with
                | Raise e => Raise e
                | Ok ys => Ok (y :: ys)
                end
      end
  end.
End Tensors.

(** ** [_tfm_pad_spectro]: pad a spectrogram to a width *)

Section Pad.
Context {A : Type}.
Variable zero : A.

(** [padded[:, :, start:start+w] = src] for a source with a single
    frame, which is broadcast over the [w] frames of the slice. *)
Definition assign_time_broadcast (padded : Tensor A) (start w : nat)
    (src : Tensor A) : Tensor A :=
  mkTensor (size0 padded) (size1 padded) (size2 padded)
    (zip_with
       (zip_with (fun prow srow =>
          take start prow ++ concat (replicate w srow)
            ++ drop (start + w) prow))
       (cells padded) (cells src)).

Definition _tfm_pad_spectro (sg : AudioSpectrogram A) (width : Z)
    (pad_mode : string) : M (Tensor A) :=
  let '(c, y, x) := shape (data sg) in
  let pad_m := lower pad_mode in
  if String.eqb pad_m "zeros" || String.eqb pad_m "zeros_after" then
    if width <? 0 then raise RuntimeError
    else
      let padded := zeros zero c y (Z.to_nat width) in
      let* start := (if String.eqb pad_m "zeros"
                     then randint 0 (width - Z.of_nat x)
                     else ret 0) in
      let a := slice_index width start in
      let b := slice_index width (start + Z.of_nat x) in
      let w := Z.to_nat (b - a) in
      if (w =? x)%nat
      then ret (assign_time padded (Z.to_nat a) (data sg))
      else if (x =? 1)%nat
      then ret (assign_time_broadcast padded (Z.to_nat a) w (data sg))
      else raise RuntimeError
  else if String.eqb pad_m "repeat" then
    if (x =? 0)%nat then raise ZeroDivisionError
    else
      let repeats := width / Z.of_nat x + 1 in
      if repeats <? 0 then raise RuntimeError
      else ret (slice_time (tile_time (data sg) (Z.to_nat repeats)) 0 width)
  else raise (ValueError_pad_mode pad_m).
End Pad.

(** ** [CropTime] *)

Module CropTime.
Record t : Type := mk {
  duration : Z;                   (* milliseconds *)
  pad_mode : string
}.

(** What [encodes] leaves behind: the object it returns, and the
    attributes it assigned on the local slice object [sg_crop], in
    order.  Whether those attributes can also be read through the
    returned object is decided by the tensor class, outside this module. *)
Record outcome (A : Type) : Type := mkOutcome {
  returned : AudioSpectrogram A;
  sg_crop_attrs : list (string * Z)
}.
Arguments mkOutcome {A} _ _.
Arguments returned {A} _.
Arguments sg_crop_attrs {A} _.

(** [int((sr * duration) / (1000 * hop)) + 1]: both products are ints,
    their quotient is a float. *)
Definition w_crop (sr duration hop : Z) : result Z :=
  match truediv (sr * duration) (1000 * hop) with
  | Raise e => Raise e
  | Ok q => Ok (py_int (PyFloat q) + 1)
  end.

Section Encodes.
Context {A : Type}.
Variable zero : A.

Definition encodes (self : t) (sg : AudioSpectrogram A)
  : M (outcome A) :=
  let sr := sr sg in
  let hop := hop_length sg in
  let* w_crop := lift (w_crop sr (duration self) hop) in
  let w_sg := Z.of_nat (size2 (data sg)) in
  if w_sg =? w_crop then
    ret (mkOutcome (set_data sg (data sg)) [])
  else if w_sg <? w_crop then
    let* sg_crop := _tfm_pad_spectro zero sg w_crop (pad_mode self) in
    ret (mkOutcome (set_data sg sg_crop) [])
  else
    let* crop_start := randint 0 (w_sg - w_crop) in
    let sg_crop := slice_time (data sg) crop_start (crop_start + w_crop) in
    let sample_start := crop_start * hop in
    let sample_end := sample_start + duration self * sr in
    ret (mkOutcome (set_data sg sg_crop)
           [("sample_start"%string, sample_start);
            ("sample_end"%string, sample_end)]).
End Encodes.
End CropTime.

(** ** [MaskFreq] *)

Module MaskFreq.
Record t (A : Type) : Type := mk {
  num_masks : Z;
  size : Z;
  start : option Z;
  val : option A
}.
Arguments mk {A} _ _ _ _.
Arguments num_masks {A} _.
Arguments size {A} _.
Arguments start {A} _.
Arguments val {A} _.

Section Encodes.
Context {A : Type}.
Variable mean : list A -> A.

(** [sg.contiguous().view(sg.size(0), -1).mean(-1)]: one mean per
    channel; [view(0, -1)] is refused by torch. *)
Definition channel_mean (sg : Tensor A) : result (list A) :=
  if (size0 sg =? 0)%nat then Raise RuntimeError
  else Ok (map (fun ch => mean (concat ch)) (cells sg)).

(** [torch.ones(size, x) * mask_val], one plane per channel: the fill
    value is broadcast over the [size] rows and [x] frames. *)
Definition make_mask (size x : nat) (mask_val : list A)
  : list (list (list A)) :=
  map (fun v => replicate size (replicate x v)) mask_val.

(** [sg[:, start:start+size, :] = mask], for a band that fits. *)
Definition assign_band (sg : Tensor A) (start : nat)
    (mask : list (list (list A))) : Tensor A :=
  mkTensor (size0 sg) (size1 sg) (size2 sg)
    (zip_with (fun m ch => take start ch ++ m ++ drop (start + length m) ch)
              mask (cells sg)).

(** [for _ in range(num_masks)], with [n] iterations left; [y] and [x]
    are the extents read from [sg.shape] before the loop. *)
Fixpoint mask_loop (size : Z) (mask_val : list A) (y x : nat) (n : nat)
    (start : Z) (sg : Tensor A) : M (Tensor A) :=
  match n with
  | O => ret sg
  | S n' =>
      if size <? 0 then raise RuntimeError
      else
        let mask := make_mask (Z.to_nat size) x mask_val in
        if negb ((0 <=? start) && (start <=? Z.of_nat y - size))
        then raise (ValueError_start_range start (shape sg))
        else
          let sg' := assign_band sg (Z.to_nat start) mask in
          let* start' := randint 0 (Z.of_nat y - size) in
          mask_loop size mask_val y x n' start' sg'
  end.

Definition encodes (self : t A) (sg : AudioSpectrogram A)
  : M (AudioSpectrogram A) :=
  let* channel_mean := lift (channel_mean (data sg)) in
  (* a supplied scalar fills every channel; the means fill their own *)
  let mask_val :=
    ifnone (option_map (replicate (size0 (data sg))) (val self))
           channel_mean in
  let '(c, y, x) := shape (data sg) in
  (* both arguments of ifnone are evaluated: the draw always happens *)
  let* r := randint 0 (Z.of_nat y - size self) in
  let start := ifnone (start self) r in
  let* d := mask_loop (size self) mask_val y x
              (Z.to_nat (num_masks self)) start (data sg) in
  ret (set_data sg d).
End Encodes.
End MaskFreq.

(** ** [MaskTime] *)

Module MaskTime.
Section Encodes.
Context {A : Type}.
Variable mean : list A -> A.

(** The constructor takes the same parameters as [MaskFreq] and hands
    them over unchanged. *)
Definition encodes (self : MaskFreq.t A) (sg : AudioSpectrogram A)
  : M (AudioSpectrogram A) :=
  let sg1 := set_data sg (transposed (data sg)) in
  let* sg2 := MaskFreq.encodes mean self sg1 in
  ret (set_data sg2 (transposed (data sg2))).
End Encodes.
End MaskTime.

(** ** [SGRoll] *)

Module SGRoll.
(** [max_shift_pct] is a float and [direction] an int or a float, both
    finite. *)
Record t : Type := mk {
  max_shift_pct : Q;
  direction : pynum
}.

Definition __init__ (max_shift_pct : Q) (direction : pynum) : result t :=
  if negb (existsb (Z.eqb (py_int direction)) [-1; 0; 1])
  then Raise ValueError_direction
  else Ok (mk max_shift_pct direction).

(** The float [w * random.random() * self.max_shift_pct]: the int [w]
    is converted, and each product is rounded. *)
Definition partial_shift (w : nat) (r pct : Q) : Q :=
  fmul (fmul (py_float (PyInt (Z.of_nat w))) r) pct.

(** [int(w * random.random() * self.max_shift_pct * direction)], for a
    product inside the float range. *)
Definition roll_by (w : nat) (r pct : Q) (direction : pynum) : Z :=
  py_int (PyFloat (fmul (partial_shift w r pct) (py_float direction))).

(** The product leaves the float range, at [... * self.max_shift_pct] or
    at [... * direction].  It is then an infinity, which the last factor
    (never zero: a direction of 0 has been replaced) keeps infinite, and
    [int] raises OverflowError on it.  [w * random.random()] is below the
    width, a tensor size, and stays in range. *)
Definition shift_overflows (w : nat) (r pct : Q) (direction : pynum)
  : bool :=
  overflows (partial_shift w r pct)
  || overflows (fmul (partial_shift w r pct) (py_float direction)).

Section Encodes.
Context {A : Type}.

Definition encodes (self : t) (sg : AudioSpectrogram A)
  : M (AudioSpectrogram A) :=
  let* direction :=
    (if py_is_zero (direction self)
     then let* d := random_choice_dir in ret (PyInt d)
     else ret (direction self)) in
  let w := size2 (data sg) in
  let* r := random_random in
  if shift_overflows w r (max_shift_pct self) direction
  then raise OverflowError
  else
    let roll_by := roll_by w r (max_shift_pct self) direction in
    ret (set_data sg (roll roll_by (data sg))).
End Encodes.
End SGRoll.

(** ** [_torchdelta] and [Delta] *)

Module Delta.
Section Encodes.
Context {A : Type}.
(** [librosa.feature.delta(data, order=order, width=width)] on one
    channel, taken as given. *)
Variable librosa_delta : Z -> Z -> Plane A -> result (Plane A).

Definition _torchdelta (sg : Plane A) (order width : Z)
  : result (Plane A) :=
  if Z.of_nat (pcols sg) <? width then Raise (ValueError_delta width)
  else librosa_delta order width sg.

(** [torch.stack([c, self.td(c, order=1), self.td(c, order=2)])] *)
Definition new_channel (width : Z) (c : Plane A) : result (Tensor A) :=
  match _torchdelta c 1 width with
  | Raise e => Raise e
  | Ok d1 =>
      match _torchdelta c 2 width with
      | Raise e => Raise e
      | Ok d2 => stack [c; d1; d2]
      end
  end.

Definition encodes (width : Z) (sg : AudioSpectrogram A)
  : result (AudioSpectrogram A) :=
  match map_result (new_channel width) (planes (data sg)) with
  | Raise e => Raise e
  | Ok new_channels =>
      match cat new_channels with
      | Raise e => Raise e
      | Ok d => Ok (set_data sg d)
      end
  end.
End Encodes.
End Delta.

(** * Vocabulary of the specification *)

(** The direction is one of the numbers -1, 0, 1 (as an int or a float). *)
Definition unit_direction (d : pynum) : Prop :=
  py_to_Q d == -1 \/ py_to_Q d == 0 \/ py_to_Q d == 1.


(** The three pad modes that [_tfm_pad_spectro] names. *)
Definition supported_pad_mode (pad_m : string) : Prop :=
  pad_m = "zeros"%string \/ pad_m = "zeros_after"%string
  \/ pad_m = "repeat"%string.


(** An instance for the examples: integer cells, the mean rounded down. *)
Definition mean_Z (l : list Z) : Z :=
  fold_right Z.add 0 l / Z.of_nat (length l).

(** MaskFreq applied to the time/frequency-transposed spectrogram, the
    result transposed back: the reading that the specification gives of
    MaskTime, to be compared with [MaskTime.encodes]. *)
Definition transposed_MaskFreq {A} (mean : list A -> A) (self : MaskFreq.t A)
    (sg : AudioSpectrogram A) : M (AudioSpectrogram A) :=
  fun tp =>
    match MaskFreq.encodes mean self (set_data sg (transposed (data sg))) tp with
    | Ok (masked, tp') => Ok (set_data masked (transposed (data masked)), tp')
    | Raise e => Raise e
    end.

(** What is assumed of [librosa.feature.delta] for a window [width] that
    fits: on a channel of [y] by [x] cells it returns a channel of the
    same shape. *)
Definition delta_keeps_shape {A}
    (librosa_delta : Z -> Z -> Plane A -> result (Plane A))
    (width : Z) (y x : nat) : Prop :=
  forall (order : Z) (p : Plane A),
    prows p = y -> pcols p = x -> rect_plane p ->
    exists q, librosa_delta order width p = Ok q /\
              prows q = y /\ pcols q = x /\ rect_plane q.


(** An instance for the examples: a delta that is zero everywhere, as for
    a signal that is constant along time. *)
Definition flat_delta (order width : Z) (p : Plane Z) : result (Plane Z) :=
  Ok (mkPlane (prows p) (pcols p) (map (map (fun _ => 0)) (entries p))).

(** A two-channel spectrogram of 3 frequency bins and 4 time frames, for
    the examples. *)
Definition sample_sg : AudioSpectrogram Z :=
  mkSpectrogram 16000 160
    (mkTensor 2 3 4
       [[[1; 2; 3; 4]; [5; 6; 7; 8]; [9; 10; 11; 12]];
        [[10; 20; 30; 40]; [50; 60; 70; 80]; [90; 100; 110; 120]]]).

(** * Properties *)

(** ** Generic facts: strings, slices, the tape *)

Lemma lower_ascii_idem (c : ascii) : lower_ascii (lower_ascii c) = lower_ascii c.
Proof. destruct c as [[] [] [] [] [] [] [] []]; reflexivity. Qed.

Lemma lower_idem (s : string) : lower (lower s) = lower s.
Proof.
  induction s as [|c s IH]; simpl; [reflexivity|].
  now rewrite lower_ascii_idem, IH.
Qed.

Lemma randint_inv a b tp v tp' :
  randint a b tp = Ok (v, tp') -> a <= v <= b.
Proof.
  unfold randint, bind, draw, ret, raise.
  destruct (Z.ltb_spec b a) as [Hlt|Hge]; [discriminate|].
  destruct tp as [|n tp0]; intros [= <- <-].
  - rewrite Z.mod_0_l by lia. lia.
  - pose proof (Z.mod_pos_bound (Z.of_N n) (b - a + 1) ltac:(lia)). lia.
Qed.

Lemma randint_ok a b tp :
  a <= b -> exists v tp', randint a b tp = Ok (v, tp') /\ a <= v <= b.
Proof.
  intros Hab. destruct (randint a b tp) as [[v tp']|e] eqn:E.
  - exists v, tp'. split; [reflexivity|]. eapply randint_inv; eassumption.
  - exfalso. revert E. unfold randint, bind, draw, ret, raise.
    destruct (Z.ltb_spec b a); [lia|]. destruct tp; discriminate.
Qed.

Lemma randint_empty a b tp :
  b < a -> randint a b tp = Raise (ValueError_empty_range a b).
Proof.
  intros Hlt. unfold randint, raise.
  destruct (Z.ltb_spec b a); [reflexivity|lia].
Qed.

Lemma set_data_same {A} (sg : AudioSpectrogram A) : set_data sg (data sg) = sg.
Proof. now destruct sg. Qed.

(** ** Floats: rounding to binary64 *)

Lemma round_half_even_cases (num den : Z) :
  round_half_even num den = num / den \/
  (round_half_even num den = num / den + 1 /\ den <= 2 * (num mod den)).
Proof.
  unfold round_half_even.
  destruct (Z.ltb_spec (2 * (num mod den)) den); [now left|].
  destruct (Z.ltb_spec den (2 * (num mod den))); [right; split; [reflexivity|lia]|].
  destruct (Z.even (num / den)); [now left|right; split; [reflexivity|lia]].
Qed.

Lemma round_half_even_nonneg (num den : Z) :
  0 <= num -> 0 < den -> 0 <= round_half_even num den.
Proof.
  intros Hn Hd. pose proof (Z.div_pos num den Hn Hd).
  destruct (round_half_even_cases num den) as [->|[-> _]]; lia.
Qed.

Lemma round_half_even_le (num den M : Z) :
  0 < den -> num <= M * den -> round_half_even num den <= M.
Proof.
  intros Hd Hle.
  pose proof (Z.div_mod num den ltac:(lia)) as E.
  pose proof (Z.mod_pos_bound num den Hd) as B.
  destruct (round_half_even_cases num den) as [->|[-> Hr]]; nia.
Qed.

Lemma ulp_exponent_nonpos (n d : Z) :
  0 < n -> 0 < d -> n < 2 ^ 53 * d -> ulp_exponent n d <= 0.
Proof.
  intros Hn Hd Hlt. unfold ulp_exponent.
  destruct (Z.log2_spec n Hn) as [Ln Un].
  destruct (Z.log2_spec d Hd) as [Ld Ud].
  pose proof (Z.log2_nonneg n). pose proof (Z.log2_nonneg d).
  assert (Hl : Z.log2 n < Z.log2 d + 54).
  { apply (Z.pow_lt_mono_r_iff 2); [lia|lia|].
    replace (Z.log2 d + 54) with (Z.succ (Z.log2 d) + 53) by lia.
    rewrite Z.pow_add_r by lia. nia. }
  destruct (Z.leb_spec 0 (Z.log2 n - Z.log2 d - 53)) as [Hz|Hz].
  - replace (Z.log2 n - Z.log2 d - 53) with 0 by lia.
    rewrite Z.pow_0_r, Z.mul_1_r.
    destruct (Z.ltb_spec n (2 ^ 53 * d)); lia.
  - destruct (_ <? _); lia.
Qed.

Lemma round64_zero (q : Q) : Qnum q = 0 -> round64 q = 0%Q.
Proof. intros H. unfold round64. now rewrite H. Qed.

Lemma round64_sign (q : Q) :
  exists m, 0 <= m /\ Qnum (round64 q) = Z.sgn (Qnum q) * m.
Proof.
  unfold round64.
  destruct (Z.eqb_spec (Z.abs (Qnum q)) 0) as [E|E].
  - exists 0. simpl. lia.
  - set (n := Z.abs (Qnum q)) in *. set (d := Zpos (Qden q)).
    assert (Hn : 0 < n) by (unfold n in *; lia).
    assert (Hd : 0 < d) by (unfold d; lia).
    destruct (Z.ltb_spec 0 (ulp_exponent n d)) as [He|He].
    + eexists. split; [|reflexivity].
      apply Z.mul_nonneg_nonneg; [|lia].
      apply round_half_even_nonneg; [lia|].
      apply Z.mul_pos_pos; [lia|]. apply Z.pow_pos_nonneg; lia.
    + eexists. split; [|reflexivity].
      apply round_half_even_nonneg; [|lia].
      apply Z.mul_nonneg_nonneg; [lia|]. apply Z.pow_nonneg. lia.
Qed.

Lemma round64_within (q : Q) (z : Z) :
  0 <= z < 2 ^ 53 -> within q z -> within (round64 q) z.
Proof.
  unfold within. intros Hz Hq. unfold round64.
  destruct (Z.eqb_spec (Z.abs (Qnum q)) 0) as [E|E].
  - simpl. lia.
  - set (n := Z.abs (Qnum q)) in *. set (d := Zpos (Qden q)) in *.
    assert (Hn : 0 < n) by (unfold n in *; lia).
    assert (Hd : 0 < d) by (unfold d; lia).
    assert (He : ulp_exponent n d <= 0)
      by (apply ulp_exponent_nonpos; [lia|lia|nia]).
    destruct (Z.ltb_spec 0 (ulp_exponent n d)) as [Hlt|_]; [lia|].
    set (k := - ulp_exponent n d) in *.
    assert (Hk : 0 < 2 ^ k) by (apply Z.pow_pos_nonneg; lia).
    cbn [Qnum Qden]. rewrite Z2Pos.id by exact Hk.
    assert (Hm : 0 <= round_half_even (n * 2 ^ k) d)
      by (apply round_half_even_nonneg; nia).
    assert (Hle : round_half_even (n * 2 ^ k) d <= z * 2 ^ k)
      by (apply round_half_even_le; nia).
    rewrite Z.abs_mul, (Z.abs_eq (round_half_even _ _)) by exact Hm.
    destruct (Z.sgn_spec (Qnum q)) as [[? ->]|[[? ->]|[? ->]]];
      simpl Z.abs; lia.
Qed.

Lemma within_in_range (q : Q) (z : Z) :
  z < 2 ^ 53 -> within q z -> overflows q = false.
Proof.
  unfold within. intros Hz H.
  unfold overflows. apply Z.leb_gt.
  assert (2 ^ 53 < 2 ^ 1024) by (apply Z.pow_lt_mono_r; lia).
  pose proof (Pos2Z.is_pos (Qden q)). nia.
Qed.

Lemma round_half_even_div (a b k : Z) :
  0 <= a -> 0 < b -> 0 <= k -> b < 2 ^ (k + 1) ->
  round_half_even (a * 2 ^ k) b / 2 ^ k = a / b.
Proof.
  intros Ha Hb Hk Hlt.
  assert (HP : 0 < 2 ^ k) by (apply Z.pow_pos_nonneg; lia).
  rewrite Z.pow_add_r, Z.pow_1_r in Hlt by lia.
  set (P := 2 ^ k) in *.
  pose proof (round_half_even_cases (a * P) b) as Hc.
  pose proof (Z.div_mod a b ltac:(lia)) as Ea.
  pose proof (Z.mod_pos_bound a b Hb) as Ba.
  pose proof (Z.div_mod (a * P) b ltac:(lia)) as Eq.
  pose proof (Z.mod_pos_bound (a * P) b Hb) as Bq.
  set (n := a / b) in *. set (rho := a mod b) in *.
  set (Q := (a * P) / b) in *. set (R := (a * P) mod b) in *.
  assert (Hlo : n * P <= Q) by nia.
  assert (Hhi : Q < (n + 1) * P) by nia.
  symmetry. apply Z.div_unique with (r := round_half_even (a * P) b - n * P).
  - left.
    destruct Hc as [->|[-> Hr]]; [lia|].
    split; [lia|].
    assert (Q + 1 <> (n + 1) * P); [|lia].
    intros Heq. nia.
  - lia.
Qed.

Lemma ulp_exponent_cases (n d : Z) :
  0 < n < 2 ^ 53 -> 0 < d ->
  d < 2 ^ (- ulp_exponent n d + 1) \/ ulp_exponent n d = -1074.
Proof.
  intros Hn Hd. unfold ulp_exponent.
  destruct (Z.log2_spec n ltac:(lia)) as [Ln Un].
  destruct (Z.log2_spec d Hd) as [Ld Ud].
  pose proof (Z.log2_nonneg n). pose proof (Z.log2_nonneg d).
  assert (Hl : Z.log2 n < 53)
    by (apply (Z.pow_lt_mono_r_iff 2); lia).
  set (e1 := Z.log2 n - Z.log2 d - 53).
  match goal with |- context [Z.max ?x _] => set (e' := x) end.
  assert (He' : e' <= - Z.log2 d).
  { unfold e'. match goal with |- context [if ?c then e1 else _] =>
      destruct c end; unfold e1; lia. }
  destruct (Z.max_spec e' (-1074)) as [[_ ->]|[_ ->]]; [now right|left].
  eapply Z.lt_le_trans; [exact Ud|].
  apply Z.pow_le_mono_r; lia.
Qed.

Lemma round64_floor (n : Z) (d : positive) :
  0 <= n < 2 ^ 53 ->
  py_int (PyFloat (round64 (n # d))) = n / Zpos d /\ overflows (round64 (n # d)) = false.
Proof.
  intros Hn. split.
  2:{ apply (within_in_range _ n); [lia|].
      apply round64_within; [exact Hn|]. unfold within. cbn [Qnum Qden]. nia. }
  unfold round64. cbn [Qnum Qden].
  destruct (Z.eqb_spec (Z.abs n) 0) as [E|E].
  - replace n with 0 by lia. reflexivity.
  - rewrite (Z.abs_eq n) by lia.
    assert (He : ulp_exponent n (Zpos d) <= 0)
      by (apply ulp_exponent_nonpos; [lia|lia|nia]).
    destruct (Z.ltb_spec 0 (ulp_exponent n (Zpos d))) as [Hlt|_]; [lia|].
    pose proof (ulp_exponent_cases n (Zpos d) ltac:(lia) ltac:(lia)) as Hc.
    set (k := - ulp_exponent n (Zpos d)) in *.
    assert (Hk : 0 < 2 ^ k) by (apply Z.pow_pos_nonneg; lia).
    unfold py_int. cbn [Qnum Qden]. rewrite Z2Pos.id by exact Hk.
    replace (Z.sgn n) with 1 by (symmetry; apply Z.sgn_pos; lia).
    rewrite Z.mul_1_l.
    assert (Hm : 0 <= round_half_even (n * 2 ^ k) (Zpos d))
      by (apply round_half_even_nonneg; nia).
    rewrite Z.quot_div_nonneg by lia.
    destruct (Z.lt_ge_cases (Zpos d) (2 ^ (k + 1))) as [Hs|Hb].
    + apply round_half_even_div; lia.
    + destruct Hc as [Hc|Hc]; [lia|].
      assert (k = 1074) by (unfold k; lia).
      rewrite Z.pow_add_r, Z.pow_1_r in Hb by lia.
      assert (H52 : 2 ^ 53 = 2 ^ 52 * 2) by reflexivity.
      assert (Hbig : 2 ^ 52 < 2 ^ k) by (apply Z.pow_lt_mono_r; lia).
      rewrite (Z.div_small n) by nia.
      apply Z.div_small. split; [exact Hm|].
      assert (round_half_even (n * 2 ^ k) (Zpos d) <= 2 ^ 52); [|lia].
      apply round_half_even_le; [lia|nia].
Qed.

(** Below 2^53 the float quotient of two ints truncates to their integer
    quotient: the rounding never reaches the next integer. *)
Lemma truediv_exact (a b : Z) :
  0 <= a < 2 ^ 53 -> 0 < b ->
  exists q, truediv a b = Ok q /\ py_int (PyFloat q) = a / b.
Proof.
  intros Ha Hb. unfold truediv.
  destruct (Z.eqb_spec b 0) as [|_]; [lia|].
  destruct b as [|p|p]; try lia.
  change (inject_Z a / inject_Z (Zpos p))%Q with ((a * 1) # (1 * p)).
  rewrite Z.mul_1_r, Pos.mul_1_l.
  destruct (round64_floor a p Ha) as [Hq Ho].
  rewrite Ho. eauto.
Qed.

Lemma w_crop_exact (sr duration hop : Z) :
  0 <= sr * duration < 2 ^ 53 -> 0 < hop ->
  CropTime.w_crop sr duration hop
  = Ok (sr * duration / (1000 * hop) + 1).
Proof.
  intros Hn Hh. unfold CropTime.w_crop.
  destruct (truediv_exact (sr * duration) (1000 * hop) Hn ltac:(lia))
    as (q & -> & ->).
  reflexivity.
Qed.

(** ** SGRoll: the direction check of the constructor *)

(** C3 (code defect): the guard of [__init__] tests [int(direction)]
    where its message, like the claim, speaks of [direction].  At the
    float 0.5, which is none of -1, 0, 1, [int(0.5) = 0] passes the test
    and construction returns an instance instead of raising; at -1.5
    likewise, and [encodes] then multiplies by the raw value: on the 4
    frames of the sample, with max_shift_pct = 1 and the largest draw,
    the shift is -5, more than the width. *)
Theorem SGRoll_init_accepts_fractions :
  (~ unit_direction (PyFloat (1 # 2)) /\
   SGRoll.__init__ (1 # 2) (PyFloat (1 # 2))
   = Ok (SGRoll.mk (1 # 2) (PyFloat (1 # 2)))) /\
  (~ unit_direction (PyFloat (-3 # 2)) /\
   SGRoll.__init__ 1 (PyFloat (-3 # 2))
   = Ok (SGRoll.mk 1 (PyFloat (-3 # 2))) /\
   size2 (data sample_sg) = 4%nat /\
   SGRoll.encodes (SGRoll.mk 1 (PyFloat (-3 # 2))) sample_sg
     [9007199254740991%N]
   = Ok (set_data sample_sg (roll (-5) (data sample_sg)), [])).
Proof.
  split; split; try reflexivity.
  - unfold unit_direction, Qeq; simpl. lia.
  - unfold unit_direction, Qeq; simpl. lia.
  - split; [reflexivity|]. split; reflexivity.
Qed.

(** Truncation toward zero lands in {-1, 0, 1} exactly for the fractions
    strictly between -2 and 2. *)
Lemma quot_unit (n : Z) (d : positive) :
  (Z.quot n (Zpos d) = -1 \/ Z.quot n (Zpos d) = 0 \/ Z.quot n (Zpos d) = 1)
  <-> -2 * Zpos d < n < 2 * Zpos d.
Proof.
  pose proof (Z.quot_rem' n (Zpos d)) as E.
  pose proof (Pos2Z.is_pos d) as Hd.
  destruct (Z_lt_le_dec n 0) as [Hn|Hn].
  - pose proof (Z.rem_bound_pos_neg n (Zpos d) Hd ltac:(lia)) as Hr.
    split; [intros [H|[H|H]]; nia|]. intros H. nia.
  - pose proof (Z.rem_bound_pos n (Zpos d) Hn Hd) as Hr.
    split; [intros [H|[H|H]]; nia|]. intros H. nia.
Qed.

(** What the guard computes, in general: construction raises exactly
    when [int(direction)] is not one of -1, 0, 1.  On the integers this
    is the rule of the message, construction succeeding exactly for -1,
    0 and 1; on the floats it lets through every value strictly between
    -2 and 2. *)
Lemma SGRoll_init_direction (pct : Q) (d : pynum) :
  (SGRoll.__init__ pct d = Ok (SGRoll.mk pct d)
   <-> py_int d = -1 \/ py_int d = 0 \/ py_int d = 1) /\
  (SGRoll.__init__ pct d = Raise ValueError_direction
   <-> ~ (py_int d = -1 \/ py_int d = 0 \/ py_int d = 1)) /\
  (forall z : Z,
     SGRoll.__init__ pct (PyInt z) = Ok (SGRoll.mk pct (PyInt z))
     <-> z = -1 \/ z = 0 \/ z = 1) /\
  (forall q : Q,
     SGRoll.__init__ pct (PyFloat q) = Ok (SGRoll.mk pct (PyFloat q))
     <-> (-2 < q /\ q < 2)%Q).
Proof.
  assert (G : forall d0,
    (SGRoll.__init__ pct d0 = Ok (SGRoll.mk pct d0)
     <-> py_int d0 = -1 \/ py_int d0 = 0 \/ py_int d0 = 1) /\
    (SGRoll.__init__ pct d0 = Raise ValueError_direction
     <-> ~ (py_int d0 = -1 \/ py_int d0 = 0 \/ py_int d0 = 1))).
  { intros d0. unfold SGRoll.__init__. simpl existsb.
    destruct (Z.eqb_spec (py_int d0) (-1)) as [E1|N1]; simpl.
    { split; split; intros H; try reflexivity; try discriminate; tauto. }
    destruct (Z.eqb_spec (py_int d0) 0) as [E2|N2]; simpl.
    { split; split; intros H; try reflexivity; try discriminate; tauto. }
    destruct (Z.eqb_spec (py_int d0) 1) as [E3|N3]; simpl.
    { split; split; intros H; try reflexivity; try discriminate; tauto. }
    split; split; intros H; try reflexivity; try discriminate; tauto. }
  split; [apply G|]. split; [apply G|].
  split; [intros z; apply (G (PyInt z))|].
  intros q. destruct (G (PyFloat q)) as [-> _]. simpl py_int.
  rewrite quot_unit. unfold Qlt. simpl. lia.
Qed.

(** ** The pad helper *)

Lemma bind_Ok_inv {X Y} (m : M X) (k : X -> M Y) tp y tp' :
  bind m k tp = Ok (y, tp') ->
  exists x tp0, m tp = Ok (x, tp0) /\ k x tp0 = Ok (y, tp').
Proof.
  unfold bind. destruct (m tp) as [[x tp0]|e]; [|discriminate].
  intros H. now exists x, tp0.
Qed.

Lemma bind_Raise_inv {X Y} (m : M X) (k : X -> M Y) tp e :
  bind m k tp = Raise e ->
  m tp = Raise e \/ exists x tp0, m tp = Ok (x, tp0) /\ k x tp0 = Raise e.
Proof.
  unfold bind. destruct (m tp) as [[x tp0]|e0].
  - intros H. right. now exists x, tp0.
  - intros [= ->]. now left.
Qed.

Lemma randint_Raise_inv a b tp e :
  randint a b tp = Raise e -> e = ValueError_empty_range a b.
Proof.
  unfold randint, bind, draw, ret, raise.
  destruct (b <? a); [now intros [= <-]|]. destruct tp; discriminate.
Qed.

(** The three branches of the helper, by the lowercased mode. *)
Lemma tfm_pad_spectro_zeros {A} (zero : A) sg width pad_mode :
  lower pad_mode = "zeros"%string ->
  _tfm_pad_spectro zero sg width pad_mode =
  let '(c, y, x) := shape (data sg) in
  if width <? 0 then raise RuntimeError
  else
    let padded := zeros zero c y (Z.to_nat width) in
    let* start := randint 0 (width - Z.of_nat x) in
    let a := slice_index width start in
    let b := slice_index width (start + Z.of_nat x) in
    let w := Z.to_nat (b - a) in
    if (w =? x)%nat
    then ret (assign_time padded (Z.to_nat a) (data sg))
    else if (x =? 1)%nat
    then ret (assign_time_broadcast padded (Z.to_nat a) w (data sg))
    else raise RuntimeError.
Proof. intros E. unfold _tfm_pad_spectro. now rewrite E. Qed.

Lemma tfm_pad_spectro_zeros_after {A} (zero : A) sg width pad_mode :
  lower pad_mode = "zeros_after"%string ->
  _tfm_pad_spectro zero sg width pad_mode =
  let '(c, y, x) := shape (data sg) in
  if width <? 0 then raise RuntimeError
  else
    let padded := zeros zero c y (Z.to_nat width) in
    let* start := ret 0 in
    let a := slice_index width start in
    let b := slice_index width (start + Z.of_nat x) in
    let w := Z.to_nat (b - a) in
    if (w =? x)%nat
    then ret (assign_time padded (Z.to_nat a) (data sg))
    else if (x =? 1)%nat
    then ret (assign_time_broadcast padded (Z.to_nat a) w (data sg))
    else raise RuntimeError.
Proof. intros E. unfold _tfm_pad_spectro. now rewrite E. Qed.

Lemma tfm_pad_spectro_repeat {A} (zero : A) sg width pad_mode :
  lower pad_mode = "repeat"%string ->
  _tfm_pad_spectro zero sg width pad_mode =
  let x := size2 (data sg) in
  if (x =? 0)%nat then raise ZeroDivisionError
  else
    let repeats := width / Z.of_nat x + 1 in
    if repeats <? 0 then raise RuntimeError
    else ret (slice_time (tile_time (data sg) (Z.to_nat repeats)) 0 width).
Proof. intros E. unfold _tfm_pad_spectro. now rewrite E. Qed.

Lemma tfm_pad_spectro_unsupported {A} (zero : A) sg width pad_mode :
  ~ supported_pad_mode (lower pad_mode) ->
  _tfm_pad_spectro zero sg width pad_mode
  = raise (ValueError_pad_mode (lower pad_mode)).
Proof.
  unfold supported_pad_mode, _tfm_pad_spectro. intros Hn. simpl.
  destruct (String.eqb_spec (lower pad_mode) "zeros"); [tauto|].
  destruct (String.eqb_spec (lower pad_mode) "zeros_after"); [tauto|].
  destruct (String.eqb_spec (lower pad_mode) "repeat"); [tauto|].
  reflexivity.
Qed.

(** No supported mode ever raises the unsupported-mode error. *)
Lemma tfm_pad_spectro_supported {A} (zero : A) sg width pad_mode tp m :
  supported_pad_mode (lower pad_mode) ->
  _tfm_pad_spectro zero sg width pad_mode tp <> Raise (ValueError_pad_mode m).
Proof.
  intros [E|[E|E]].
  - rewrite (tfm_pad_spectro_zeros _ _ _ _ E). unfold shape; simpl.
    case (width <? 0); [discriminate|]. intros Hm.
    apply bind_Raise_inv in Hm as [Hm|(s & tp0 & _ & Hm)].
    + apply randint_Raise_inv in Hm. discriminate.
    + revert Hm. repeat (case (_ =? _)%nat); discriminate.
  - rewrite (tfm_pad_spectro_zeros_after _ _ _ _ E). unfold shape; simpl.
    case (width <? 0); [discriminate|]. intros Hm.
    apply bind_Raise_inv in Hm as [Hm|(s & tp0 & _ & Hm)].
    + discriminate.
    + revert Hm. repeat (case (_ =? _)%nat); discriminate.
  - rewrite (tfm_pad_spectro_repeat _ _ _ _ E). simpl.
    case (_ =? _)%nat; [discriminate|].
    case (Z.ltb _ _); discriminate.
Qed.

(** C10: the pad mode is matched on its lowercase form.  The helper run
    with a mode string is the helper run with the lowercased string, so a
    string whose lowercase form is one of the three modes behaves as that
    mode (for instance 'ZEROS' and 'Repeat'), and the unsupported-mode
    error is raised exactly for the strings whose lowercase form is none
    of the three. *)
Theorem tfm_pad_spectro_mode_lowercased {A} (zero : A)
    (sg : AudioSpectrogram A) (width : Z) (pad_mode : string) (tp : tape) :
  _tfm_pad_spectro zero sg width pad_mode tp
  = _tfm_pad_spectro zero sg width (lower pad_mode) tp /\
  ((exists m, _tfm_pad_spectro zero sg width pad_mode tp
              = Raise (ValueError_pad_mode m))
   <-> ~ supported_pad_mode (lower pad_mode)) /\
  lower "ZEROS" = "zeros"%string /\ lower "Repeat" = "repeat"%string.
Proof.
  split; [|split; [|split; reflexivity]].
  - unfold _tfm_pad_spectro. now rewrite lower_idem.
  - split.
    + intros [m Hm] Hs. now apply (tfm_pad_spectro_supported zero sg width pad_mode tp m).
    + intros Hn. exists (lower pad_mode).
      now rewrite tfm_pad_spectro_unsupported.
Qed.

(** ** CropTime *)

Lemma CropTime_encodes_equal {A} (zero : A) self (sg : AudioSpectrogram A) tp w :
  CropTime.w_crop (sr sg) (CropTime.duration self) (hop_length sg) = Ok w ->
  Z.of_nat (size2 (data sg)) = w ->
  CropTime.encodes zero self sg tp = Ok (CropTime.mkOutcome sg [], tp).
Proof.
  intros Hw Hx. unfold CropTime.encodes, bind, lift. rewrite Hw.
  rewrite Hx, Z.eqb_refl. unfold ret. now rewrite set_data_same.
Qed.

Lemma CropTime_encodes_pad {A} (zero : A) self (sg : AudioSpectrogram A) tp w :
  CropTime.w_crop (sr sg) (CropTime.duration self) (hop_length sg) = Ok w ->
  Z.of_nat (size2 (data sg)) < w ->
  CropTime.encodes zero self sg tp =
  match _tfm_pad_spectro zero sg w (CropTime.pad_mode self) tp with
  | Ok (sg_crop, tp') => Ok (CropTime.mkOutcome (set_data sg sg_crop) [], tp')
  | Raise e => Raise e
  end.
Proof.
  intros Hw Hx. unfold CropTime.encodes, bind, lift. rewrite Hw.
  destruct (Z.eqb_spec (Z.of_nat (size2 (data sg))) w); [lia|].
  destruct (Z.ltb_spec (Z.of_nat (size2 (data sg))) w); [|lia].
  destruct (_tfm_pad_spectro _ _ _ _ _) as [[p tp']|e]; reflexivity.
Qed.

Lemma CropTime_encodes_crop {A} (zero : A) self (sg : AudioSpectrogram A) tp w :
  CropTime.w_crop (sr sg) (CropTime.duration self) (hop_length sg) = Ok w ->
  w < Z.of_nat (size2 (data sg)) ->
  exists crop_start tp',
    0 <= crop_start <= Z.of_nat (size2 (data sg)) - w /\
    CropTime.encodes zero self sg tp =
    Ok (CropTime.mkOutcome
          (set_data sg (slice_time (data sg) crop_start (crop_start + w)))
          [("sample_start"%string, crop_start * hop_length sg);
           ("sample_end"%string,
            crop_start * hop_length sg + CropTime.duration self * sr sg)],
        tp').
Proof.
  intros Hw Hx. unfold CropTime.encodes, bind, lift. rewrite Hw.
  destruct (Z.eqb_spec (Z.of_nat (size2 (data sg))) w); [lia|].
  destruct (Z.ltb_spec (Z.of_nat (size2 (data sg))) w); [lia|].
  destruct (randint_ok 0 (Z.of_nat (size2 (data sg)) - w) tp ltac:(lia))
    as (cs & tp' & Hr & Hcs).
  exists cs, tp'. split; [exact Hcs|]. now rewrite Hr.
Qed.

(** C1 at the end-to-end example of the specification: a 1x64x100
    spectrogram with sr = 16000 and hop_length = 160, cropped to 500 ms.
    The crop start is drawn in [0, 49], sample_start is crop_start * 160,
    and sample_end is sample_start + 500 * 16000 = sample_start + 8000000:
    the duration in milliseconds is multiplied by the sample rate without
    the division by 1000, so the offset is not the 8000 samples that 500 ms
    last at 16 kHz. *)
Theorem CropTime_sample_end_500ms {A} (zero : A) (pad_mode : string)
    (cs : list (list (list A))) (tp : tape) :
  let sg := mkSpectrogram 16000 160 (mkTensor 1 64 100 cs) in
  exists crop_start tp' out,
    CropTime.encodes zero (CropTime.mk 500 pad_mode) sg tp = Ok (out, tp') /\
    0 <= crop_start <= 49 /\
    shape (data (CropTime.returned out)) = (1%nat, 64%nat, 51%nat) /\
    CropTime.sg_crop_attrs out =
      [("sample_start"%string, crop_start * 160);
       ("sample_end"%string, crop_start * 160 + 8000000)] /\
    crop_start * 160 + 8000000 <> crop_start * 160 + 8000.
Proof.
  intros sg.
  destruct (CropTime_encodes_crop zero (CropTime.mk 500 pad_mode) sg tp 51)
    as (crop_start & tp' & Hcs & He); [reflexivity|simpl; lia|].
  simpl in Hcs, He.
  eexists crop_start, tp', _. split; [exact He|].
  split; [lia|]. split; [|split; [reflexivity|lia]].
  unfold shape, slice_time, slice_index; simpl.
  do 2 f_equal.
  destruct (Z.ltb_spec crop_start 0); [lia|].
  destruct (Z.ltb_spec (crop_start + 51) 0); lia.
Qed.

(** C9: when the time-frame count equals the target width, CropTime
    returns the very spectrogram it was given, consumes no randomness and
    assigns no attribute; and whenever a call assigns sample_start or
    sample_end, the frame count exceeded the target width (the crop
    branch), so the equal and the pad branches never assign them. *)
Theorem CropTime_metadata_only_on_crop {A} (zero : A) (self : CropTime.t)
    (sg : AudioSpectrogram A) (tp : tape) (w : Z)
    (Hw : CropTime.w_crop (sr sg) (CropTime.duration self) (hop_length sg)
          = Ok w) :
  (Z.of_nat (size2 (data sg)) = w ->
   CropTime.encodes zero self sg tp = Ok (CropTime.mkOutcome sg [], tp)) /\
  (forall out tp',
     CropTime.encodes zero self sg tp = Ok (out, tp') ->
     CropTime.sg_crop_attrs out <> [] ->
     w < Z.of_nat (size2 (data sg))).
Proof.
  split.
  - intros Hx. now apply CropTime_encodes_equal with (w := w).
  - intros out tp' He Hattrs.
    destruct (Z.lt_trichotomy (Z.of_nat (size2 (data sg))) w) as [Hlt|[Heq|Hgt]].
    + exfalso. rewrite (CropTime_encodes_pad zero self sg tp w Hw Hlt) in He.
      destruct (_tfm_pad_spectro _ _ _ _ _) as [[p tp0]|e]; [|discriminate].
      injection He as <- <-. now apply Hattrs.
    + exfalso. rewrite (CropTime_encodes_equal zero self sg tp w Hw Heq) in He.
      injection He as <- <-. apply Hattrs. reflexivity.
    + exact Hgt.
Qed.

Lemma CropTime_metadata_only_on_crop_witness :
  let sg := mkSpectrogram 16000 160 (mkTensor 1 2 3 [[[1; 2; 3]; [4; 5; 6]]]) in
  let self := CropTime.mk 20 "zeros" in
  CropTime.w_crop (sr sg) (CropTime.duration self) (hop_length sg) = Ok 3 /\
  ((Z.of_nat (size2 (data sg)) = 3 ->
    CropTime.encodes 0 self sg [] = Ok (CropTime.mkOutcome sg [], [])) /\
   (forall out tp',
      CropTime.encodes 0 self sg [] = Ok (out, tp') ->
      CropTime.sg_crop_attrs out <> [] ->
      3 < Z.of_nat (size2 (data sg)))).
Proof.
  split; [reflexivity|].
  apply (CropTime_metadata_only_on_crop 0 (CropTime.mk 20 "zeros")
           (mkSpectrogram 16000 160 (mkTensor 1 2 3 [[[1; 2; 3]; [4; 5; 6]]]))
           [] 3).
  reflexivity.
Defined.

(** *** Shapes of the tensor operations *)

Lemma rect_intro {A} (c y x : nat) (cs : list (list (list A))) :
  length cs = c ->
  (forall ch, In ch cs -> length ch = y /\ forall row, In row ch -> length row = x) ->
  rect (mkTensor c y x cs).
Proof.
  intros Hc H. split; [exact Hc|]. simpl.
  apply List.Forall_forall. intros ch Hch. destruct (H ch Hch) as [Hy Hrow].
  split; [exact Hy|]. now apply List.Forall_forall.
Qed.

Lemma rect_elim {A} (t : Tensor A) :
  rect t ->
  length (cells t) = size0 t /\
  forall ch, In ch (cells t) ->
    length ch = size1 t /\ forall row, In row ch -> length row = size2 t.
Proof.
  intros [Hc H]. split; [exact Hc|]. intros ch Hch.
  rewrite List.Forall_forall in H. destruct (H ch Hch) as [Hy Hrow].
  split; [exact Hy|]. now rewrite List.Forall_forall in Hrow.
Qed.

Lemma in_replicate {X} (n : nat) (x y : X) : In y (replicate n x) -> y = x.
Proof. induction n as [|n IH]; simpl; [tauto|]. intros [<-|H]; auto. Qed.

Lemma rect_zeros {A} (zero : A) c y w : rect (zeros zero c y w).
Proof.
  apply rect_intro; [apply length_replicate|].
  intros ch Hch. apply in_replicate in Hch as ->.
  split; [apply length_replicate|].
  intros row Hrow. apply in_replicate in Hrow as ->. apply length_replicate.
Qed.

Lemma slice_index_range len i : 0 <= len -> 0 <= slice_index len i <= len.
Proof. unfold slice_index. destruct (Z.ltb_spec i 0); lia. Qed.

Lemma rect_slice_time {A} (t : Tensor A) start stop :
  rect t -> rect (slice_time t start stop).
Proof.
  intros Ht. destruct (rect_elim t Ht) as [Hc H].
  pose proof (slice_index_range (Z.of_nat (size2 t)) start ltac:(lia)) as Ha.
  pose proof (slice_index_range (Z.of_nat (size2 t)) stop ltac:(lia)) as Hb.
  unfold slice_time. apply rect_intro.
  - now rewrite length_map.
  - intros ch' Hch'. apply in_map_iff in Hch' as (ch & <- & Hch).
    destruct (H ch Hch) as [Hy Hrow]. split; [now rewrite length_map|].
    intros row' Hrow'. apply in_map_iff in Hrow' as (row & <- & Hin).
    rewrite length_take, length_drop, (Hrow row Hin). lia.
Qed.

Lemma length_concat_replicate {A} (n : nat) (row : list A) :
  length (concat (replicate n row)) = (n * length row)%nat.
Proof.
  induction n as [|n IH]; simpl; [reflexivity|].
  rewrite length_app, IH. reflexivity.
Qed.

Lemma rect_tile_time {A} (t : Tensor A) reps :
  rect t -> rect (tile_time t reps).
Proof.
  intros Ht. destruct (rect_elim t Ht) as [Hc H].
  unfold tile_time. apply rect_intro.
  - now rewrite length_map.
  - intros ch' Hch'. apply in_map_iff in Hch' as (ch & <- & Hch).
    destruct (H ch Hch) as [Hy Hrow]. split; [now rewrite length_map|].
    intros row' Hrow'. apply in_map_iff in Hrow' as (row & <- & Hin).
    now rewrite length_concat_replicate, (Hrow row Hin).
Qed.

Lemma in_zip_with {X Y Z'} (f : X -> Y -> Z') xs ys z :
  In z (zip_with f xs ys) -> exists x y, In x xs /\ In y ys /\ z = f x y.
Proof.
  revert ys. induction xs as [|x xs IH]; intros [|y ys]; simpl; try tauto.
  intros [<-|Hin].
  - exists x, y. tauto.
  - destruct (IH ys Hin) as (x' & y' & Hx & Hy & ->).
    exists x', y'. tauto.
Qed.

Lemma rect_assign_time {A} (padded src : Tensor A) (start : nat) :
  rect padded -> rect src ->
  size0 src = size0 padded -> size1 src = size1 padded ->
  (start + size2 src <= size2 padded)%nat ->
  rect (assign_time padded start src).
Proof.
  intros Hp Hs E0 E1 Hfit.
  destruct (rect_elim padded Hp) as [Hpc HP].
  destruct (rect_elim src Hs) as [Hsc HS].
  unfold assign_time. apply rect_intro.
  - rewrite length_zip_with. lia.
  - intros ch' Hch'. apply in_zip_with in Hch' as (pch & sch & Hpch & Hsch & ->).
    destruct (HP pch Hpch) as [Hpy Hprow]. destruct (HS sch Hsch) as [Hsy Hsrow].
    split; [rewrite length_zip_with; lia|].
    intros row' Hrow'.
    apply in_zip_with in Hrow' as (prow & srow & Hprow' & Hsrow' & ->).
    rewrite !length_app, length_take, length_drop.
    rewrite (Hprow prow Hprow'), (Hsrow srow Hsrow'). lia.
Qed.

(** Padding a narrower spectrogram succeeds in each supported mode and
    gives exactly the requested width. *)
Lemma tfm_pad_spectro_width {A} (zero : A) (sg : AudioSpectrogram A)
    (width : Z) (pad_mode : string) (tp : tape) :
  rect (data sg) ->
  Z.of_nat (size2 (data sg)) < width ->
  supported_pad_mode (lower pad_mode) ->
  (lower pad_mode = "repeat"%string -> size2 (data sg) <> 0%nat) ->
  exists p tp',
    _tfm_pad_spectro zero sg width pad_mode tp = Ok (p, tp') /\
    shape p = (size0 (data sg), size1 (data sg), Z.to_nat width) /\
    rect p.
Proof.
  intros Hrect Hlt Hmode Hx.
  assert (Hzeros : forall start, 0 <= start <= width - Z.of_nat (size2 (data sg)) ->
    let a := slice_index width start in
    let b := slice_index width (start + Z.of_nat (size2 (data sg))) in
    a = start /\ (Z.to_nat (b - a) =? size2 (data sg))%nat = true).
  { intros start Hs. unfold slice_index.
    destruct (Z.ltb_spec start 0); [lia|].
    destruct (Z.ltb_spec (start + Z.of_nat (size2 (data sg))) 0); [lia|].
    split; [lia|]. apply Nat.eqb_eq. lia. }
  assert (Hassign : forall start, 0 <= start <= width - Z.of_nat (size2 (data sg)) ->
    rect (assign_time (zeros zero (size0 (data sg)) (size1 (data sg)) (Z.to_nat width))
            (Z.to_nat start) (data sg))).
  { intros start Hs. apply rect_assign_time; simpl; try reflexivity; try lia.
    - apply rect_zeros.
    - exact Hrect. }
  destruct Hmode as [E|[E|E]].
  - rewrite (tfm_pad_spectro_zeros _ _ _ _ E). unfold shape; simpl.
    destruct (Z.ltb_spec width 0); [lia|].
    destruct (randint_ok 0 (width - Z.of_nat (size2 (data sg))) tp ltac:(lia))
      as (start & tp' & Hr & Hs).
    destruct (Hzeros start Hs) as [Ea Eb].
    unfold bind. rewrite Hr, Eb, Ea.
    eexists _, tp'. split; [reflexivity|]. split; [reflexivity|].
    now apply Hassign.
  - rewrite (tfm_pad_spectro_zeros_after _ _ _ _ E). unfold shape; simpl.
    destruct (Z.ltb_spec width 0); [lia|].
    destruct (Hzeros 0 ltac:(lia)) as [Ea Eb].
    unfold bind, ret at 1. rewrite Eb, Ea.
    eexists _, tp. split; [reflexivity|]. split; [reflexivity|].
    apply (Hassign 0). lia.
  - rewrite (tfm_pad_spectro_repeat _ _ _ _ E). simpl.
    specialize (Hx E).
    destruct (Nat.eqb_spec (size2 (data sg)) 0); [contradiction|].
    set (x := Z.of_nat (size2 (data sg))) in *.
    assert (Hxpos : 0 < x) by lia.
    pose proof (Z.div_pos width x ltac:(lia) Hxpos) as Hq.
    pose proof (Z.mul_succ_div_gt width x Hxpos) as Hcover.
    destruct (Z.ltb_spec (width / x + 1) 0); [lia|].
    eexists _, tp. split; [reflexivity|]. split.
    + unfold shape, slice_time, tile_time, slice_index; simpl.
      do 2 f_equal.
      destruct (Z.ltb_spec width 0); [lia|].
      rewrite Nat2Z.inj_mul, Z2Nat.id by lia. fold x. lia.
    + apply rect_slice_time, rect_tile_time, Hrect.
Qed.

(** C4: CropTime returns a spectrogram with exactly
    w_crop = floor(sr * duration / (1000 * hop_length)) + 1 time frames and
    with the channel and frequency extents of its input: the input itself
    when it already has that width, the result of the pad helper when it
    is narrower, a slice of w_crop consecutive frames when it is wider.
    The settings are those of a spectrogram: a positive hop length, and
    a product sr * duration that is non-negative and below 2^53, the
    range where the float quotient of line 20, truncated by int, is the
    integer quotient.  The pad mode is one of the three supported ones,
    and 'repeat' is given at least one frame to repeat. *)
Theorem CropTime_output_width {A} (zero : A) (self : CropTime.t)
    (sg : AudioSpectrogram A) (tp : tape)
    (Hrect : rect (data sg))
    (Hnum : 0 <= sr sg * CropTime.duration self < 2 ^ 53)
    (Hhop : 0 < hop_length sg)
    (Hmode : supported_pad_mode (lower (CropTime.pad_mode self)))
    (Hx : lower (CropTime.pad_mode self) = "repeat"%string ->
          size2 (data sg) <> 0%nat) :
  let w := sr sg * CropTime.duration self / (1000 * hop_length sg) + 1 in
  let x := Z.of_nat (size2 (data sg)) in
  exists out tp',
    CropTime.encodes zero self sg tp = Ok (out, tp') /\
    shape (data (CropTime.returned out))
    = (size0 (data sg), size1 (data sg), Z.to_nat w) /\
    rect (data (CropTime.returned out)) /\
    (x = w -> CropTime.returned out = sg) /\
    (x < w -> _tfm_pad_spectro zero sg w (CropTime.pad_mode self) tp
              = Ok (data (CropTime.returned out), tp')) /\
    (w < x -> exists crop_start,
       0 <= crop_start <= x - w /\
       data (CropTime.returned out)
       = slice_time (data sg) crop_start (crop_start + w)).
Proof.
  intros w x.
  assert (Hw : CropTime.w_crop (sr sg) (CropTime.duration self) (hop_length sg)
               = Ok w).
  { now apply w_crop_exact. }
  assert (Hwpos : 1 <= w).
  { unfold w. pose proof (Z.div_pos (sr sg * CropTime.duration self)
                            (1000 * hop_length sg) ltac:(lia) ltac:(lia)).
    lia. }
  destruct (Z.lt_trichotomy x w) as [Hlt|[Heq|Hgt]].
  - destruct (tfm_pad_spectro_width zero sg w (CropTime.pad_mode self) tp
                Hrect Hlt Hmode Hx) as (p & tp' & Hp & Hshape & Hrp).
    exists (CropTime.mkOutcome (set_data sg p) []), tp'.
    rewrite (CropTime_encodes_pad zero self sg tp w Hw Hlt), Hp. simpl.
    split; [reflexivity|]. split; [exact Hshape|]. split; [exact Hrp|].
    split; [lia|]. split; [reflexivity|lia].
  - exists (CropTime.mkOutcome sg []), tp.
    rewrite (CropTime_encodes_equal zero self sg tp w Hw Heq). simpl.
    split; [reflexivity|]. split; [unfold shape; do 2 f_equal; lia|].
    split; [exact Hrect|]. split; [reflexivity|]. split; lia.
  - destruct (CropTime_encodes_crop zero self sg tp w Hw Hgt)
      as (cs & tp' & Hcs & He).
    eexists _, tp'. split; [exact He|]. simpl.
    split; [|split; [now apply rect_slice_time|]].
    + unfold shape, slice_time, slice_index; simpl. do 2 f_equal.
      destruct (Z.ltb_spec cs 0); [lia|].
      destruct (Z.ltb_spec (cs + w) 0); lia.
    + split; [lia|]. split; [lia|]. intros _. now exists cs.
Qed.

Lemma CropTime_output_width_witness :
  let sg := mkSpectrogram 16000 160 (mkTensor 1 2 3 [[[1; 2; 3]; [4; 5; 6]]]) in
  let self := CropTime.mk 40 "Zeros" in
  let tp := [7%N] in
  rect (data sg) /\
  0 <= sr sg * CropTime.duration self < 2 ^ 53 /\
  0 < hop_length sg /\
  supported_pad_mode (lower (CropTime.pad_mode self)) /\
  (lower (CropTime.pad_mode self) = "repeat"%string -> size2 (data sg) <> 0%nat) /\
  let w := sr sg * CropTime.duration self / (1000 * hop_length sg) + 1 in
  let x := Z.of_nat (size2 (data sg)) in
  exists out tp',
    CropTime.encodes 0 self sg tp = Ok (out, tp') /\
    shape (data (CropTime.returned out))
    = (size0 (data sg), size1 (data sg), Z.to_nat w) /\
    rect (data (CropTime.returned out)) /\
    (x = w -> CropTime.returned out = sg) /\
    (x < w -> _tfm_pad_spectro 0 sg w (CropTime.pad_mode self) tp
              = Ok (data (CropTime.returned out), tp')) /\
    (w < x -> exists crop_start,
       0 <= crop_start <= x - w /\
       data (CropTime.returned out)
       = slice_time (data sg) crop_start (crop_start + w)).
Proof.
  intros sg self tp.
  assert (Hrect : rect (data sg)).
  { split; [reflexivity|]. repeat constructor. }
  assert (Hnum : 0 <= sr sg * CropTime.duration self < 2 ^ 53)
    by (simpl; lia).
  assert (Hhop : 0 < hop_length sg) by (simpl; lia).
  assert (Hmode : supported_pad_mode (lower (CropTime.pad_mode self)))
    by (left; reflexivity).
  assert (Hx : lower (CropTime.pad_mode self) = "repeat"%string ->
               size2 (data sg) <> 0%nat) by (simpl; lia).
  split; [exact Hrect|]. split; [exact Hnum|]. split; [exact Hhop|].
  split; [exact Hmode|]. split; [exact Hx|].
  exact (CropTime_output_width 0 self sg tp Hrect Hnum Hhop Hmode Hx).
Defined.

(** Beyond that range the quotient is rounded before it is truncated:
    (10^18 - 1) / 10^18 is the float 1.0, and the width is 2 frames where
    the integer quotient gives 1. *)
Example CropTime_w_crop_rounded :
  CropTime.w_crop (10 ^ 18 - 1) 1 (10 ^ 15) = Ok 2 /\
  (10 ^ 18 - 1) * 1 / (1000 * 10 ^ 15) + 1 = 1.
Proof. split; reflexivity. Qed.

(** ** MaskFreq *)

(** The fill value per channel, as [encodes] computes it. *)
Lemma MaskFreq_encodes_unfold {A} (mean : list A -> A) self
    (sg : AudioSpectrogram A) tp :
  size0 (data sg) <> 0%nat ->
  MaskFreq.encodes mean self sg tp =
  let mask_val :=
    ifnone (option_map (replicate (size0 (data sg))) (MaskFreq.val self))
           (map (fun ch => mean (concat ch)) (cells (data sg))) in
  match randint 0 (Z.of_nat (size1 (data sg)) - MaskFreq.size self) tp with
  | Raise e => Raise e
  | Ok (r, tp1) =>
      match MaskFreq.mask_loop (MaskFreq.size self) mask_val
              (size1 (data sg)) (size2 (data sg))
              (Z.to_nat (MaskFreq.num_masks self))
              (ifnone (MaskFreq.start self) r) (data sg) tp1 with
      | Raise e => Raise e
      | Ok (d, tp2) => Ok (set_data sg d, tp2)
      end
  end.
Proof.
  intros Hc. unfold MaskFreq.encodes, MaskFreq.channel_mean, bind, lift, shape.
  destruct (Nat.eqb_spec (size0 (data sg)) 0); [contradiction|]. simpl.
  destruct (randint _ _ tp) as [[r tp1]|e]; [|reflexivity].
  destruct (MaskFreq.mask_loop _ _ _ _ _ _) as [[d tp2]|e]; reflexivity.
Qed.

Lemma mask_loop_step {A} (size : Z) (mask_val : list A) y x n start
    (sg : Tensor A) tp :
  0 <= size -> 0 <= start <= Z.of_nat y - size ->
  MaskFreq.mask_loop size mask_val y x (S n) start sg tp =
  match randint 0 (Z.of_nat y - size) tp with
  | Raise e => Raise e
  | Ok (start', tp') =>
      MaskFreq.mask_loop size mask_val y x n start'
        (MaskFreq.assign_band sg (Z.to_nat start)
           (MaskFreq.make_mask (Z.to_nat size) x mask_val)) tp'
  end.
Proof.
  intros Hs Hk. simpl.
  destruct (Z.ltb_spec size 0); [lia|].
  destruct (Z.leb_spec 0 start); [|lia].
  destruct (Z.leb_spec start (Z.of_nat y - size)); [|lia].
  simpl. unfold bind.
  destruct (randint _ _ tp) as [[s' tp']|e]; reflexivity.
Qed.

Lemma mask_loop_bad_start {A} (size : Z) (mask_val : list A) y x n start
    (sg : Tensor A) tp :
  0 <= size -> ~ (0 <= start <= Z.of_nat y - size) ->
  MaskFreq.mask_loop size mask_val y x (S n) start sg tp
  = Raise (ValueError_start_range start (shape sg)).
Proof.
  intros Hs Hk. simpl.
  destruct (Z.ltb_spec size 0); [lia|].
  destruct (Z.leb_spec 0 start); simpl; [|reflexivity].
  destruct (Z.leb_spec start (Z.of_nat y - size)); [lia|reflexivity].
Qed.

(** A loop entered with a start in range runs to its end: every later
    start is drawn in range. *)
Lemma mask_loop_ok {A} (size : Z) (mask_val : list A) y x n :
  forall start (sg : Tensor A) tp,
  0 <= size -> 0 <= start <= Z.of_nat y - size ->
  exists d tp', MaskFreq.mask_loop size mask_val y x n start sg tp = Ok (d, tp')
                /\ shape d = shape sg.
Proof.
  induction n as [|n IH]; intros start sg tp Hs Hk.
  - exists sg, tp. split; reflexivity.
  - rewrite mask_loop_step by assumption.
    destruct (randint_ok 0 (Z.of_nat y - size) tp ltac:(lia))
      as (s' & tp' & Hr & Hs').
    rewrite Hr.
    destruct (IH s' (MaskFreq.assign_band sg (Z.to_nat start)
                (MaskFreq.make_mask (Z.to_nat size) x mask_val)) tp'
                Hs Hs') as (d & tp2 & Hd & Hshape).
    exists d, tp2. split; [exact Hd|]. rewrite Hshape. reflexivity.
Qed.

(** C2, as stated, fails.  With no mask to apply the loop body never
    runs and nothing is validated: on 2 frequency bins and a mask of 1
    row, a supplied start of 5 lies outside the valid range [0, 1], and
    the call raises nothing and returns its input. *)
Lemma MaskFreq_no_mask_no_validation :
  let sg := mkSpectrogram 16000 160 (mkTensor 1 2 1 [[[1]; [2]]]) in
  ~ (0 <= 5 <= Z.of_nat (size1 (data sg)) - 1) /\
  MaskFreq.encodes mean_Z (MaskFreq.mk 0 1 (Some 5) None) sg [] = Ok (sg, []).
Proof.
  split; [simpl; lia|reflexivity].
Qed.

(** C2 (amended): on a spectrogram with at least one channel and for a
    mask size between 0 and the number of frequency bins.  With at least
    one mask, a supplied start outside [0, num_freq_bins - size] raises
    the range error that reports that start and the shape, and a
    supplied start inside it raises nothing.  With no mask to apply
    (num_masks <= 0) no start is validated: whatever start is supplied,
    the call returns its input. *)
Theorem MaskFreq_range_errors {A} (mean : list A -> A) (self : MaskFreq.t A)
    (sg : AudioSpectrogram A) (tp : tape)
    (Hc : size0 (data sg) <> 0%nat) :
  let y := Z.of_nat (size1 (data sg)) in
  (0 <= MaskFreq.size self <= y -> 1 <= MaskFreq.num_masks self ->
   forall k, MaskFreq.start self = Some k ->
     (~ (0 <= k <= y - MaskFreq.size self) ->
      MaskFreq.encodes mean self sg tp
      = Raise (ValueError_start_range k (shape (data sg)))) /\
     (0 <= k <= y - MaskFreq.size self ->
      exists out tp', MaskFreq.encodes mean self sg tp = Ok (out, tp'))) /\
  (0 <= MaskFreq.size self <= y -> MaskFreq.num_masks self <= 0 ->
   exists tp', MaskFreq.encodes mean self sg tp = Ok (sg, tp')).
Proof.
  intros y. split.
  - intros Hsize Hn k Hk.
    rewrite MaskFreq_encodes_unfold by assumption. cbv zeta. fold y.
    destruct (randint_ok 0 (y - MaskFreq.size self) tp ltac:(lia))
      as (r & tp1 & Hr & _).
    rewrite Hr, Hk. simpl ifnone.
    destruct (Z.to_nat (MaskFreq.num_masks self)) as [|n] eqn:En; [lia|].
    split.
    + intros Hbad. rewrite mask_loop_bad_start by (fold y; lia). reflexivity.
    + intros Hgood.
      destruct (mask_loop_ok (MaskFreq.size self)
                  (ifnone (option_map (replicate (size0 (data sg))) (MaskFreq.val self))
                     (map (fun ch => mean (concat ch)) (cells (data sg))))
                  (size1 (data sg)) (size2 (data sg))
                  (S n) k (data sg) tp1 ltac:(lia) ltac:(fold y; lia))
        as (d & tp2 & Hd & _).
      rewrite Hd. eauto.
  - intros Hsize Hn.
    rewrite MaskFreq_encodes_unfold by assumption. cbv zeta. fold y.
    destruct (randint_ok 0 (y - MaskFreq.size self) tp ltac:(lia))
      as (r & tp1 & Hr & _).
    rewrite Hr.
    replace (Z.to_nat (MaskFreq.num_masks self)) with 0%nat by lia.
    simpl. unfold ret. rewrite set_data_same. eauto.
Qed.

Lemma MaskFreq_range_errors_witness :
  let sg := mkSpectrogram 16000 160 (mkTensor 1 2 1 [[[1]; [2]]]) in
  let self := MaskFreq.mk 1 1 (Some 2) None in
  size0 (data sg) <> 0%nat /\
  let y := Z.of_nat (size1 (data sg)) in
  (0 <= MaskFreq.size self <= y -> 1 <= MaskFreq.num_masks self ->
   forall k, MaskFreq.start self = Some k ->
     (~ (0 <= k <= y - MaskFreq.size self) ->
      MaskFreq.encodes mean_Z self sg []
      = Raise (ValueError_start_range k (shape (data sg)))) /\
     (0 <= k <= y - MaskFreq.size self ->
      exists out tp', MaskFreq.encodes mean_Z self sg [] = Ok (out, tp'))) /\
  (0 <= MaskFreq.size self <= y -> MaskFreq.num_masks self <= 0 ->
   exists tp', MaskFreq.encodes mean_Z self sg [] = Ok (sg, tp')).
Proof.
  intros sg self.
  assert (Hc : size0 (data sg) <> 0%nat) by (simpl; lia).
  split; [exact Hc|].
  exact (MaskFreq_range_errors mean_Z self sg [] Hc).
Defined.

(** A mask larger than the number of frequency bins.  Line 64 draws a
    start position over [0, num_freq_bins - size] as an argument of
    [ifnone], hence also when a start is supplied; for such a mask the
    range is empty and the draw raises its own error, so that the
    validation of lines 67-70, which reports a start and the shape, is
    not reached. *)
Lemma MaskFreq_oversized_mask_error {A} (mean : list A -> A)
    (self : MaskFreq.t A) (sg : AudioSpectrogram A) (tp : tape) :
  size0 (data sg) <> 0%nat ->
  Z.of_nat (size1 (data sg)) < MaskFreq.size self ->
  MaskFreq.encodes mean self sg tp
  = Raise (ValueError_empty_range 0
             (Z.of_nat (size1 (data sg)) - MaskFreq.size self)).
Proof.
  intros Hc Hbig. rewrite MaskFreq_encodes_unfold by assumption. cbv zeta.
  now rewrite randint_empty by lia.
Qed.

(** *** The band written by one mask *)

Lemma lookup_map {X Y} (f : X -> Y) (l : list X) (i : nat) :
  map f l !! i = option_map f (l !! i).
Proof.
  revert i. induction l as [|x l IH]; intros [|i]; simpl; try reflexivity.
  apply IH.
Qed.

Lemma In_lookup {X} (l : list X) (i : nat) (x : X) : l !! i = Some x -> In x l.
Proof.
  intros H. apply list_elem_of_In. eapply list_elem_of_lookup_2. exact H.
Qed.

Lemma In_take {X} (n : nat) (l : list X) (x : X) : In x (take n l) -> In x l.
Proof.
  revert l. induction n as [|n IH]; intros [|y l]; simpl; try tauto.
  intros [->|H]; [now left|right; now apply IH].
Qed.

Lemma In_drop {X} (n : nat) (l : list X) (x : X) : In x (drop n l) -> In x l.
Proof.
  revert l. induction n as [|n IH]; intros [|y l]; simpl; try tauto.
  intros H. right. now apply IH.
Qed.

(** The rows of a channel after [ch[start:start+size] = m]. *)
Lemma lookup_band {X} (ch m : list X) (start f : nat) :
  (start + length m <= length ch)%nat ->
  (take start ch ++ m ++ drop (start + length m) ch) !! f =
  if (f <? start)%nat then ch !! f
  else if (f <? start + length m)%nat then m !! (f - start)%nat
  else ch !! f.
Proof.
  intros Hfit.
  destruct (Nat.ltb_spec f start) as [H1|H1].
  - rewrite lookup_app_l by (rewrite length_take; lia).
    now rewrite lookup_take_lt.
  - rewrite lookup_app_r by (rewrite length_take; lia).
    rewrite length_take, Nat.min_l by lia.
    destruct (Nat.ltb_spec f (start + length m)) as [H2|H2].
    + now rewrite lookup_app_l by lia.
    + rewrite lookup_app_r by lia. rewrite lookup_drop. f_equal. lia.
Qed.

Lemma rect_assign_band {A} (sg : Tensor A) (start size : nat) (mask_val : list A) :
  rect sg -> length mask_val = size0 sg ->
  (start + size <= size1 sg)%nat ->
  rect (MaskFreq.assign_band sg start
          (MaskFreq.make_mask size (size2 sg) mask_val)).
Proof.
  intros Hr Hlen Hfit. destruct (rect_elim sg Hr) as [Hc H].
  unfold MaskFreq.assign_band, MaskFreq.make_mask. apply rect_intro.
  - rewrite length_zip_with, length_map. lia.
  - intros ch' Hch'. apply in_zip_with in Hch' as (m & ch & Hm & Hch & ->).
    apply in_map_iff in Hm as (v & <- & _).
    destruct (H ch Hch) as [Hy Hrow].
    rewrite !length_app, length_take, length_drop, !length_replicate.
    split; [lia|].
    intros row Hin. apply in_app_or in Hin as [Hin|Hin].
    { apply Hrow. eapply In_take; eassumption. }
    apply in_app_or in Hin as [Hin|Hin].
    { apply in_replicate in Hin as ->. apply length_replicate. }
    apply Hrow. eapply In_drop; eassumption.
Qed.

Lemma at3_assign_band {A} (sg : Tensor A) (start size : nat)
    (mask_val : list A) (c f x : nat) (ch : list (list A)) (v : A) :
  rect sg -> (start + size <= size1 sg)%nat ->
  cells sg !! c = Some ch -> mask_val !! c = Some v ->
  (f < size1 sg)%nat -> (x < size2 sg)%nat ->
  at3 (MaskFreq.assign_band sg start
         (MaskFreq.make_mask size (size2 sg) mask_val)) c f x =
  if (start <=? f)%nat && (f <? start + size)%nat then Some v
  else at3 sg c f x.
Proof.
  intros Hr Hfit Hch Hv Hf Hx. destruct (rect_elim sg Hr) as [_ H].
  destruct (H ch (In_lookup _ _ _ Hch)) as [Hy _].
  unfold at3, MaskFreq.assign_band, MaskFreq.make_mask. simpl cells.
  rewrite lookup_zip_with, lookup_map, Hv, Hch. simpl.
  rewrite lookup_band by (rewrite length_replicate; lia).
  rewrite length_replicate.
  destruct (Nat.ltb_spec f start) as [H1|H1].
  - destruct (Nat.leb_spec start f); [lia|]. reflexivity.
  - destruct (Nat.leb_spec start f); [|lia]. simpl.
    destruct (Nat.ltb_spec f (start + size)) as [H2|H2]; [|reflexivity].
    rewrite lookup_replicate_2 by lia.
    now rewrite lookup_replicate_2 by lia.
Qed.

(** C7: one mask of [s] rows at the supplied start [k], with
    0 <= k <= num_freq_bins - s.  The call succeeds and keeps the shape
    and the settings; in every channel and every time frame, the rows
    k, ..., k+s-1 hold the fill value (the supplied value, or else the
    mean of that channel of the input), and every other row holds what
    the input held. *)
Theorem MaskFreq_fixed_start_band {A} (mean : list A -> A) (s k : Z)
    (v : option A) (sg : AudioSpectrogram A) (tp : tape)
    (Hrect : rect (data sg))
    (Hc : size0 (data sg) <> 0%nat)
    (Hs : 0 <= s)
    (Hk : 0 <= k <= Z.of_nat (size1 (data sg)) - s) :
  exists out tp',
    MaskFreq.encodes mean (MaskFreq.mk 1 s (Some k) v) sg tp = Ok (out, tp') /\
    sr out = sr sg /\ hop_length out = hop_length sg /\
    shape (data out) = shape (data sg) /\
    rect (data out) /\
    forall (c f x : nat) (ch : list (list A)),
      cells (data sg) !! c = Some ch ->
      (f < size1 (data sg))%nat -> (x < size2 (data sg))%nat ->
      at3 (data out) c f x =
      if (k <=? Z.of_nat f) && (Z.of_nat f <? k + s)
      then Some (ifnone v (mean (concat ch)))
      else at3 (data sg) c f x.
Proof.
  destruct (rect_elim _ Hrect) as [Hlen _].
  rewrite MaskFreq_encodes_unfold by assumption. cbv zeta.
  cbn [MaskFreq.size MaskFreq.num_masks MaskFreq.start MaskFreq.val ifnone].
  set (mask_val := ifnone (option_map (replicate (size0 (data sg))) v)
                     (map (fun ch => mean (concat ch)) (cells (data sg)))).
  destruct (randint_ok 0 (Z.of_nat (size1 (data sg)) - s) tp ltac:(lia))
    as (r & tp1 & Hr & _).
  rewrite Hr.
  change (Z.to_nat 1) with 1%nat.
  rewrite mask_loop_step by assumption.
  destruct (randint_ok 0 (Z.of_nat (size1 (data sg)) - s) tp1 ltac:(lia))
    as (r' & tp2 & Hr' & _).
  rewrite Hr'. simpl MaskFreq.mask_loop. unfold ret.
  eexists _, tp2. split; [reflexivity|].
  split; [reflexivity|]. split; [reflexivity|]. split; [reflexivity|].
  assert (Hmv : length mask_val = size0 (data sg)).
  { unfold mask_val. destruct v as [a|]; simpl.
    - apply length_replicate.
    - now rewrite length_map. }
  split.
  - simpl. apply rect_assign_band; [assumption|assumption|lia].
  - intros c f x ch Hch Hf Hx. simpl data.
    assert (Hv : mask_val !! c = Some (ifnone v (mean (concat ch)))).
    { unfold mask_val. destruct v as [a|]; simpl.
      - apply lookup_replicate_2. rewrite <- Hlen.
        eapply lookup_lt_Some; eassumption.
      - now rewrite lookup_map, Hch. }
    rewrite (at3_assign_band (data sg) (Z.to_nat k) (Z.to_nat s) mask_val
               c f x ch _ Hrect ltac:(lia) Hch Hv Hf Hx).
    destruct (Nat.leb_spec (Z.to_nat k) f); destruct (Z.leb_spec k (Z.of_nat f));
      try lia; simpl; [|reflexivity].
    destruct (Nat.ltb_spec f (Z.to_nat k + Z.to_nat s));
      destruct (Z.ltb_spec (Z.of_nat f) (k + s)); try lia; reflexivity.
Qed.

Lemma MaskFreq_fixed_start_band_witness :
  let sg := mkSpectrogram 16000 160
              (mkTensor 2 3 2 [[[1; 2]; [3; 4]; [5; 6]];
                               [[10; 20]; [30; 40]; [50; 60]]]) in
  rect (data sg) /\ size0 (data sg) <> 0%nat /\ 0 <= 2 /\
  0 <= 1 <= Z.of_nat (size1 (data sg)) - 2 /\
  exists out tp',
    MaskFreq.encodes mean_Z (MaskFreq.mk 1 2 (Some 1) None) sg [] = Ok (out, tp') /\
    sr out = sr sg /\ hop_length out = hop_length sg /\
    shape (data out) = shape (data sg) /\
    rect (data out) /\
    forall (c f x : nat) (ch : list (list Z)),
      cells (data sg) !! c = Some ch ->
      (f < size1 (data sg))%nat -> (x < size2 (data sg))%nat ->
      at3 (data out) c f x =
      if (1 <=? Z.of_nat f) && (Z.of_nat f <? 1 + 2)
      then Some (ifnone None (mean_Z (concat ch)))
      else at3 (data sg) c f x.
Proof.
  intros sg.
  assert (Hrect : rect (data sg)) by (split; [reflexivity|repeat constructor]).
  assert (Hc : size0 (data sg) <> 0%nat) by (simpl; lia).
  assert (Hs : 0 <= 2) by lia.
  assert (Hk : 0 <= 1 <= Z.of_nat (size1 (data sg)) - 2) by (simpl; lia).
  split; [exact Hrect|]. split; [exact Hc|]. split; [exact Hs|].
  split; [exact Hk|].
  exact (MaskFreq_fixed_start_band mean_Z 2 1 None sg [] Hrect Hc Hs Hk).
Defined.

(** ** MaskTime *)

Lemma transpose_rows_length {A} (nx : nat) (rows : list (list A)) :
  (forall r, In r rows -> length r = nx) ->
  length (transpose_rows nx rows) = nx.
Proof.
  induction rows as [|r rs IH]; intros H; simpl.
  - apply length_replicate.
  - rewrite length_zip_with, IH, (H r); [lia|now left|].
    intros r' Hr'. apply H. now right.
Qed.

Lemma transpose_rows_row_length {A} (nx : nat) (rows : list (list A)) :
  forall col, In col (transpose_rows nx rows) -> length col = length rows.
Proof.
  induction rows as [|r rs IH]; intros col Hin; simpl in *.
  - now apply in_replicate in Hin as ->.
  - apply in_zip_with in Hin as (a & t & _ & Ht & ->). simpl.
    f_equal. exact (IH t Ht).
Qed.

(** Entry (i, j) of the transpose is entry (j, i). *)
Lemma lookup_transpose_rows {A} (nx : nat) (rows : list (list A)) (i j : nat) :
  (forall r, In r rows -> length r = nx) ->
  (i < nx)%nat -> (j < length rows)%nat ->
  exists col r, transpose_rows nx rows !! i = Some col /\
                rows !! j = Some r /\ col !! j = r !! i /\ is_Some (r !! i).
Proof.
  revert j. induction rows as [|r rs IH]; intros j H Hi Hj; simpl in *; [lia|].
  assert (Hr : length r = nx) by (apply H; auto).
  destruct (lookup_lt_is_Some_2 r i ltac:(lia)) as [a Ha].
  assert (Hcols : length (transpose_rows nx rs) = nx)
    by (apply transpose_rows_length; auto).
  destruct (lookup_lt_is_Some_2 (transpose_rows nx rs) i ltac:(lia)) as [t Ht].
  exists (a :: t). destruct j as [|j].
  - exists r. rewrite lookup_zip_with, Ha, Ht. simpl. eauto.
  - destruct (IH j ltac:(auto) Hi ltac:(lia)) as (col & r' & Hcol & Hr' & Hcr & Hs).
    exists r'. rewrite lookup_zip_with, Ha, Ht. simpl.
    rewrite Hcol in Ht. injection Ht as <-. auto.
Qed.

Lemma at3_transposed {A} (t : Tensor A) (c f x : nat) :
  rect t -> (c < size0 t)%nat -> (f < size1 t)%nat -> (x < size2 t)%nat ->
  at3 (transposed t) c x f = at3 t c f x /\ is_Some (at3 t c f x).
Proof.
  intros Hr Hc Hf Hx. destruct (rect_elim t Hr) as [Hlen H].
  destruct (lookup_lt_is_Some_2 (cells t) c ltac:(lia)) as [ch Hch].
  destruct (H ch (In_lookup _ _ _ Hch)) as [Hy Hrow].
  destruct (lookup_transpose_rows (size2 t) ch x f Hrow Hx ltac:(lia))
    as (col & r & Hcol & Hrf & Hcr & Hs).
  unfold at3, transposed. simpl cells.
  rewrite lookup_map, Hch. simpl. now rewrite Hcol, Hrf, Hcr.
Qed.

Lemma rect_transposed {A} (t : Tensor A) : rect t -> rect (transposed t).
Proof.
  intros Hr. destruct (rect_elim t Hr) as [Hlen H].
  unfold transposed. apply rect_intro.
  - now rewrite length_map.
  - intros ch' Hch'. apply in_map_iff in Hch' as (ch & <- & Hch).
    destruct (H ch Hch) as [Hy Hrow]. split.
    + now apply transpose_rows_length.
    + intros col Hcol. now rewrite (transpose_rows_row_length _ _ col Hcol).
Qed.

(** A loop that ran to its end kept the shape, and kept the cells in
    agreement with it. *)
Lemma mask_loop_inv {A} (size : Z) (mask_val : list A) y x n :
  forall start (sg : Tensor A) tp d tp',
  MaskFreq.mask_loop size mask_val y x n start sg tp = Ok (d, tp') ->
  shape d = shape sg /\
  (rect sg -> length mask_val = size0 sg ->
   y = size1 sg -> x = size2 sg -> rect d).
Proof.
  induction n as [|n IH]; intros start sg tp d tp' H.
  - injection H as <- <-. auto.
  - simpl in H.
    destruct (Z.ltb_spec size 0); [discriminate|].
    destruct (Z.leb_spec 0 start); simpl in H; [|discriminate].
    destruct (Z.leb_spec start (Z.of_nat y - size));
      simpl in H; [|discriminate].
    apply bind_Ok_inv in H as (s' & tp1 & _ & H).
    apply IH in H as [Hshape Hrect]. split; [exact Hshape|].
    intros Hr Hlen -> ->. apply Hrect; try reflexivity; [|exact Hlen].
    apply rect_assign_band; [assumption|assumption|lia].
Qed.

Lemma MaskFreq_encodes_inv {A} (mean : list A -> A) self
    (sg : AudioSpectrogram A) tp out tp' :
  MaskFreq.encodes mean self sg tp = Ok (out, tp') ->
  sr out = sr sg /\ hop_length out = hop_length sg /\
  shape (data out) = shape (data sg) /\
  (rect (data sg) -> rect (data out)).
Proof.
  intros H.
  assert (Hc : size0 (data sg) <> 0%nat).
  { intros E. revert H.
    unfold MaskFreq.encodes, MaskFreq.channel_mean, bind, lift.
    rewrite E. discriminate. }
  rewrite MaskFreq_encodes_unfold in H by assumption. cbv zeta in H.
  destruct (randint _ _ tp) as [[r tp1]|e]; [|discriminate].
  destruct (MaskFreq.mask_loop _ _ _ _ _ _) as [[d tp2]|e] eqn:Hl; [|discriminate].
  injection H as <- <-. apply mask_loop_inv in Hl as [Hshape Hrect].
  split; [reflexivity|]. split; [reflexivity|]. split; [exact Hshape|].
  intros Hr. apply Hrect; try reflexivity; [exact Hr|].
  destruct (rect_elim _ Hr) as [Hlen _].
  destruct (MaskFreq.val self); simpl.
  - apply length_replicate.
  - now rewrite length_map.
Qed.

(** C5: MaskTime is MaskFreq, with the same parameters and the same
    random draws, applied to the transposed spectrogram and transposed
    back, errors included; and whenever it returns, the output has the
    shape of the input (and cells that agree with that shape when those
    of the input do). *)
Theorem MaskTime_is_transposed_MaskFreq {A} (mean : list A -> A)
    (self : MaskFreq.t A) (sg : AudioSpectrogram A) (tp : tape) :
  MaskTime.encodes mean self sg tp = transposed_MaskFreq mean self sg tp /\
  forall out tp',
    MaskTime.encodes mean self sg tp = Ok (out, tp') ->
    shape (data out) = shape (data sg) /\
    (rect (data sg) -> rect (data out)).
Proof.
  assert (E : MaskTime.encodes mean self sg tp
              = transposed_MaskFreq mean self sg tp).
  { unfold MaskTime.encodes, transposed_MaskFreq, bind, ret.
    destruct (MaskFreq.encodes _ _ _ _) as [[sg2 tp2]|e]; reflexivity. }
  split; [exact E|]. intros out tp' H. rewrite E in H.
  unfold transposed_MaskFreq in H.
  destruct (MaskFreq.encodes _ _ _ _) as [[sg2 tp2]|e] eqn:Hm; [|discriminate].
  injection H as <- <-.
  apply MaskFreq_encodes_inv in Hm as (_ & _ & Hshape & Hrect).
  simpl in *. split.
  - unfold shape in *. simpl in *. congruence.
  - intros Hr. apply rect_transposed, Hrect, rect_transposed, Hr.
Qed.

(** ** SGRoll *)

Lemma roll_row_0 {A} (row : list A) : roll_row 0 row = row.
Proof.
  unfold roll_row. rewrite Zmod_0_l. simpl Z.to_nat.
  rewrite Nat.sub_0_r, drop_all, take_ge by lia. reflexivity.
Qed.

(** Frame [i] of a rolled row is frame [(i - k) mod n] of the row. *)
Lemma lookup_roll_row {A} (k : Z) (row : list A) (i : nat) :
  (i < length row)%nat ->
  roll_row k row !! i
  = row !! Z.to_nat ((Z.of_nat i - k) mod Z.of_nat (length row)).
Proof.
  intros Hi. unfold roll_row.
  set (n := length row) in *.
  assert (Hn : 0 < Z.of_nat n) by lia.
  pose proof (Z.mod_pos_bound k (Z.of_nat n) Hn) as Hs.
  rewrite <- Zminus_mod_idemp_r.
  set (s := k mod Z.of_nat n) in *.
  destruct (Z_lt_le_dec (Z.of_nat i) s) as [Hlt|Hge].
  - rewrite lookup_app_l by (rewrite length_drop; fold n; lia).
    rewrite lookup_drop. f_equal.
    rewrite <- (Z_mod_plus_full _ 1), Z.mod_small by lia. lia.
  - rewrite lookup_app_r by (rewrite length_drop; fold n; lia).
    rewrite length_drop. fold n.
    rewrite lookup_take_lt by lia. f_equal.
    rewrite Z.mod_small by lia. lia.
Qed.

Lemma map_ext_id {X} (f : X -> X) (l : list X) :
  (forall x, f x = x) -> map f l = l.
Proof.
  intros H. induction l as [|x l IH]; simpl; [reflexivity|].
  now rewrite H, IH.
Qed.

Lemma roll_0 {A} (t : Tensor A) : roll 0 t = t.
Proof.
  unfold roll. destruct t as [c y x cs]. simpl. f_equal.
  apply map_ext_id. intros ch. apply map_ext_id. apply roll_row_0.
Qed.

Lemma fmul_zero_l (a b : Q) : Qnum a = 0 -> fmul a b = 0%Q.
Proof.
  intros H. unfold fmul. apply round64_zero. simpl. rewrite H. reflexivity.
Qed.

Lemma fmul_zero_r (a b : Q) : Qnum b = 0 -> fmul a b = 0%Q.
Proof.
  intros H. unfold fmul. apply round64_zero. simpl. rewrite H. lia.
Qed.

Lemma partial_shift_zero_pct (w : nat) (r pct : Q) :
  pct == 0 -> SGRoll.partial_shift w r pct = 0%Q.
Proof.
  intros Hp. unfold SGRoll.partial_shift. apply fmul_zero_r.
  unfold Qeq in Hp; simpl in Hp; lia.
Qed.

Lemma roll_by_zero_pct (w : nat) (r pct : Q) (d : pynum) :
  pct == 0 -> SGRoll.roll_by w r pct d = 0.
Proof.
  intros Hp. unfold SGRoll.roll_by.
  rewrite partial_shift_zero_pct by exact Hp.
  rewrite fmul_zero_l by reflexivity. reflexivity.
Qed.

Lemma shift_overflows_zero_pct (w : nat) (r pct : Q) (d : pynum) :
  pct == 0 -> SGRoll.shift_overflows w r pct d = false.
Proof.
  intros Hp. unfold SGRoll.shift_overflows.
  rewrite partial_shift_zero_pct by exact Hp.
  rewrite fmul_zero_l by reflexivity. reflexivity.
Qed.

(** C8: with max_shift_pct = 0 the shift amount is 0 whatever the width,
    the random draw and the direction (-1, 0 and 1 included), and
    [encodes] returns the spectrogram it was given. *)
Theorem SGRoll_zero_pct_noop {A} (self : SGRoll.t)
    (sg : AudioSpectrogram A) (tp : tape)
    (Hpct : SGRoll.max_shift_pct self == 0) :
  (forall (w : nat) (r : Q) (d : pynum),
     SGRoll.roll_by w r (SGRoll.max_shift_pct self) d = 0) /\
  exists tp', SGRoll.encodes self sg tp = Ok (sg, tp').
Proof.
  split.
  - intros w r d. now apply roll_by_zero_pct.
  - unfold SGRoll.encodes, bind, random_choice_dir, random_random, bind,
      draw, ret.
    destruct (py_is_zero (SGRoll.direction self)).
    + destruct tp as [|n [|m tp]];
        rewrite shift_overflows_zero_pct, roll_by_zero_pct, roll_0,
          set_data_same by assumption; eauto.
    + destruct tp as [|n tp];
        rewrite shift_overflows_zero_pct, roll_by_zero_pct, roll_0,
          set_data_same by assumption; eauto.
Qed.

Lemma SGRoll_zero_pct_noop_witness :
  let sg := mkSpectrogram 16000 160
              (mkTensor 1 2 3 [[[1; 2; 3]; [4; 5; 6]]]) in
  let self := SGRoll.mk 0 (PyInt (-1)) in
  SGRoll.max_shift_pct self == 0 /\
  (forall (w : nat) (r : Q) (d : pynum),
     SGRoll.roll_by w r (SGRoll.max_shift_pct self) d = 0) /\
  exists tp', SGRoll.encodes self sg [5%N; 9%N] = Ok (sg, tp').
Proof.
  intros sg self.
  assert (Hpct : SGRoll.max_shift_pct self == 0) by reflexivity.
  split; [exact Hpct|].
  exact (SGRoll_zero_pct_noop self sg [5%N; 9%N] Hpct).
Defined.

(** ** Delta *)

Section DeltaFacts.
Context {A : Type}.
Variable librosa_delta : Z -> Z -> Plane A -> result (Plane A).
Variable width : Z.
Variables y x : nat.





End DeltaFacts.




(** The assumption on librosa's delta can be met: [flat_delta] keeps the
    shape of every channel, so the second part of the statement applies. *)
Lemma flat_delta_keeps_shape (width : Z) (y x : nat) :
  delta_keeps_shape flat_delta width y x.
Proof.
  intros order p Hy Hx [Hlen Hrows]. eexists. split; [reflexivity|]. simpl.
  split; [exact Hy|]. split; [exact Hx|].
  unfold rect_plane, rect_rows in *. simpl. rewrite length_map, Hy, Hx in *.
  split; [exact Hlen|].
  apply List.Forall_forall. intros row' Hin.
  apply in_map_iff in Hin as (row & <- & Hin).
  rewrite List.Forall_forall in Hrows. rewrite length_map. now apply Hrows.
Qed.

(** ** The transforms on a concrete spectrogram *)

(** 20 ms at 16 kHz with hop 160 is 3 frames: one of the two possible
    crops of [sample_sg], here the one starting at frame 1. *)
Example CropTime_crops_sample :
  CropTime.encodes 0 (CropTime.mk 20 "zeros") sample_sg [3%N]
  = Ok (CropTime.mkOutcome
          (mkSpectrogram 16000 160
             (mkTensor 2 3 3
                [[[2; 3; 4]; [6; 7; 8]; [10; 11; 12]];
                 [[20; 30; 40]; [60; 70; 80]; [100; 110; 120]]]))
          [("sample_start"%string, 160); ("sample_end"%string, 320160)],
        []).
Proof. reflexivity. Qed.

(** 60 ms is 7 frames: the content is repeated and cut at 7. *)
Example CropTime_repeats_sample :
  CropTime.encodes 0 (CropTime.mk 60 "Repeat") sample_sg []
  = Ok (CropTime.mkOutcome
          (mkSpectrogram 16000 160
             (mkTensor 2 3 7
                [[[1; 2; 3; 4; 1; 2; 3]; [5; 6; 7; 8; 5; 6; 7];
                  [9; 10; 11; 12; 9; 10; 11]];
                 [[10; 20; 30; 40; 10; 20; 30]; [50; 60; 70; 80; 50; 60; 70];
                  [90; 100; 110; 120; 90; 100; 110]]]))
          [],
        []).
Proof. reflexivity. Qed.

Example CropTime_pads_after_sample :
  CropTime.encodes 0 (CropTime.mk 40 "zeros_after") sample_sg []
  = Ok (CropTime.mkOutcome
          (mkSpectrogram 16000 160
             (mkTensor 2 3 5
                [[[1; 2; 3; 4; 0]; [5; 6; 7; 8; 0]; [9; 10; 11; 12; 0]];
                 [[10; 20; 30; 40; 0]; [50; 60; 70; 80; 0];
                  [90; 100; 110; 120; 0]]]))
          [],
        []).
Proof. reflexivity. Qed.

(** Rows 1 and 2 take the mean of their channel (6 and 65). *)
Example MaskFreq_masks_sample :
  MaskFreq.encodes mean_Z (MaskFreq.mk 1 2 (Some 1) None) sample_sg []
  = Ok (mkSpectrogram 16000 160
          (mkTensor 2 3 4
             [[[1; 2; 3; 4]; [6; 6; 6; 6]; [6; 6; 6; 6]];
              [[10; 20; 30; 40]; [65; 65; 65; 65]; [65; 65; 65; 65]]]),
        []).
Proof. reflexivity. Qed.

(** The same parameters in MaskTime blank the time frames 1 and 2. *)
Example MaskTime_masks_sample :
  MaskTime.encodes mean_Z (MaskFreq.mk 1 2 (Some 1) None) sample_sg []
  = Ok (mkSpectrogram 16000 160
          (mkTensor 2 3 4
             [[[1; 6; 6; 4]; [5; 6; 6; 8]; [9; 6; 6; 12]];
              [[10; 65; 65; 40]; [50; 65; 65; 80]; [90; 65; 65; 120]]]),
        []).
Proof. reflexivity. Qed.

(** A draw of one half, a maximal shift of one half and direction 1 on 4
    frames: a shift by one frame to the right, the last frame wrapping. *)
Example SGRoll_rolls_sample :
  SGRoll.encodes (SGRoll.mk (1 # 2) (PyInt 1)) sample_sg
    [4503599627370496%N]
  = Ok (mkSpectrogram 16000 160
          (mkTensor 2 3 4
             [[[4; 1; 2; 3]; [8; 5; 6; 7]; [12; 9; 10; 11]];
              [[40; 10; 20; 30]; [80; 50; 60; 70]; [120; 90; 100; 110]]]),
        []).
Proof. vm_compute. reflexivity. Qed.

Example Delta_stacks_sample :
  Delta.encodes flat_delta 3 sample_sg
  = Ok (mkSpectrogram 16000 160
          (mkTensor 6 3 4
             [[[1; 2; 3; 4]; [5; 6; 7; 8]; [9; 10; 11; 12]];
              [[0; 0; 0; 0]; [0; 0; 0; 0]; [0; 0; 0; 0]];
              [[0; 0; 0; 0]; [0; 0; 0; 0]; [0; 0; 0; 0]];
              [[10; 20; 30; 40]; [50; 60; 70; 80]; [90; 100; 110; 120]];
              [[0; 0; 0; 0]; [0; 0; 0; 0]; [0; 0; 0; 0]];
              [[0; 0; 0; 0]; [0; 0; 0; 0]; [0; 0; 0; 0]]])).
Proof. reflexivity. Qed.

Example Delta_too_narrow_sample :
  Delta.encodes flat_delta 9 sample_sg = Raise (ValueError_delta 9).
Proof. reflexivity. Qed.

(** * Further properties of the transforms *)

(** ** The pad helper: where the content goes *)

Lemma zip_with_replicate_l {X Y W} (f : X -> Y -> W) (n : nat) (a : X)
    (l : list Y) :
  (length l <= n)%nat -> zip_with f (replicate n a) l = map (f a) l.
Proof.
  revert n. induction l as [|y l IH]; intros [|n] H; simpl in *;
    try reflexivity; try lia.
  f_equal. apply IH. lia.
Qed.

Lemma map_ext_In_id {X} (f : X -> X) (l : list X) :
  (forall x, In x l -> f x = x) -> map f l = l.
Proof.
  induction l as [|x l IH]; intros H; simpl; [reflexivity|].
  rewrite H by (now left). f_equal. apply IH. intros y Hy. apply H. now right.
Qed.

(** A cell of [zeros] overwritten by [src] from frame [start] on. *)
Lemma at3_assign_time_zeros {A} (zero : A) (src : Tensor A) (w start : nat)
    (c f t : nat) :
  rect src -> (start + size2 src <= w)%nat ->
  (c < size0 src)%nat -> (f < size1 src)%nat -> (t < w)%nat ->
  at3 (assign_time (zeros zero (size0 src) (size1 src) w) start src) c f t =
  if (start <=? t)%nat && (t <? start + size2 src)%nat
  then at3 src c f (t - start)
  else Some zero.
Proof.
  intros Hr Hfit Hc Hf Ht. destruct (rect_elim src Hr) as [Hlen H].
  destruct (lookup_lt_is_Some_2 (cells src) c ltac:(lia)) as [ch Hch].
  destruct (H ch (In_lookup _ _ _ Hch)) as [Hy Hrow].
  destruct (lookup_lt_is_Some_2 ch f ltac:(lia)) as [row Hrowf].
  pose proof (Hrow row (In_lookup _ _ _ Hrowf)) as Hx.
  unfold at3, assign_time, zeros. simpl cells.
  rewrite lookup_zip_with, lookup_replicate_2, Hch by lia. simpl.
  rewrite lookup_zip_with, lookup_replicate_2, Hrowf by lia. simpl.
  rewrite lookup_band by (rewrite length_replicate; lia).
  rewrite Hx.
  destruct (Nat.ltb_spec t start); destruct (Nat.leb_spec start t);
    try lia; simpl.
  - apply lookup_replicate_2. lia.
  - destruct (Nat.ltb_spec t (start + size2 src)); [reflexivity|].
    apply lookup_replicate_2. lia.
Qed.

(** The frames of a row repeated [reps] times. *)
Lemma lookup_concat_replicate {X} (reps : nat) (row : list X) (t : nat) :
  (t < reps * length row)%nat ->
  concat (replicate reps row) !! t = row !! (t mod length row)%nat.
Proof.
  revert t. induction reps as [|reps IH]; intros t Ht; [simpl in Ht; lia|].
  assert (Hpos : (0 < length row)%nat) by (destruct (length row); simpl in *; lia).
  simpl. destruct (Nat.lt_ge_cases t (length row)) as [Hlt|Hge].
  - rewrite lookup_app_l by lia. now rewrite Nat.mod_small.
  - rewrite lookup_app_r by lia. rewrite IH by (simpl in Ht; lia).
    f_equal.
    replace t with ((t - length row) + 1 * length row)%nat at 2 by lia.
    now rewrite Nat.Div0.mod_add.
Qed.

(** X1: in mode 'zeros_after' (in any letter case) the helper makes no
    random draw; the result has the requested width, the input occupies
    its first frames and every later frame is zero. *)
Theorem pad_zeros_after_left_aligns {A} (zero : A) (sg : AudioSpectrogram A)
    (width : Z) (pad_mode : string) (tp : tape)
    (Hrect : rect (data sg))
    (Hmode : lower pad_mode = "zeros_after"%string)
    (Hfit : Z.of_nat (size2 (data sg)) <= width) :
  exists p,
    _tfm_pad_spectro zero sg width pad_mode tp = Ok (p, tp) /\
    shape p = (size0 (data sg), size1 (data sg), Z.to_nat width) /\
    rect p /\
    forall c f t : nat,
      (c < size0 (data sg))%nat -> (f < size1 (data sg))%nat ->
      (t < Z.to_nat width)%nat ->
      at3 p c f t =
      if (t <? size2 (data sg))%nat then at3 (data sg) c f t else Some zero.
Proof.
  rewrite (tfm_pad_spectro_zeros_after _ _ _ _ Hmode). unfold shape; simpl.
  destruct (Z.ltb_spec width 0); [lia|].
  unfold bind, ret at 1. unfold slice_index.
  destruct (Z.ltb_spec 0 0); [lia|].
  destruct (Z.ltb_spec (0 + Z.of_nat (size2 (data sg))) 0); [lia|].
  rewrite Z.min_l, Z.min_l by lia.
  replace (Z.to_nat (0 + Z.of_nat (size2 (data sg)) - 0)) with (size2 (data sg))
    by lia.
  rewrite Nat.eqb_refl. simpl Z.to_nat.
  eexists. split; [reflexivity|]. split; [reflexivity|]. split.
  - apply rect_assign_time; simpl; try reflexivity; try lia;
      [apply rect_zeros|exact Hrect].
  - intros c f t Hc Hf Ht.
    rewrite at3_assign_time_zeros by (try assumption; lia).
    simpl. rewrite Nat.sub_0_r. reflexivity.
Qed.

Lemma pad_zeros_after_left_aligns_witness :
  rect (data sample_sg) /\ lower "Zeros_After" = "zeros_after"%string /\
  Z.of_nat (size2 (data sample_sg)) <= 6 /\
  exists p,
    _tfm_pad_spectro 0 sample_sg 6 "Zeros_After" [5%N] = Ok (p, [5%N]) /\
    shape p = (size0 (data sample_sg), size1 (data sample_sg), Z.to_nat 6) /\
    rect p /\
    forall c f t : nat,
      (c < size0 (data sample_sg))%nat -> (f < size1 (data sample_sg))%nat ->
      (t < Z.to_nat 6)%nat ->
      at3 p c f t =
      if (t <? size2 (data sample_sg))%nat
      then at3 (data sample_sg) c f t else Some 0.
Proof.
  assert (Hrect : rect (data sample_sg))
    by (split; [reflexivity|repeat constructor]).
  assert (Hmode : lower "Zeros_After" = "zeros_after"%string) by reflexivity.
  assert (Hfit : Z.of_nat (size2 (data sample_sg)) <= 6) by (simpl; lia).
  split; [exact Hrect|]. split; [exact Hmode|]. split; [exact Hfit|].
  exact (pad_zeros_after_left_aligns 0 sample_sg 6 "Zeros_After" [5%N]
           Hrect Hmode Hfit).
Defined.

(** X2: in mode 'zeros' the helper draws one offset in
    [0, width - current width]; the input occupies the frames from that
    offset on and every frame before and after it is zero. *)
Theorem pad_zeros_places_at_drawn_offset {A} (zero : A)
    (sg : AudioSpectrogram A) (width : Z) (pad_mode : string) (tp : tape)
    (Hrect : rect (data sg))
    (Hmode : lower pad_mode = "zeros"%string)
    (Hfit : Z.of_nat (size2 (data sg)) <= width) :
  exists (start : nat) p tp',
    randint 0 (width - Z.of_nat (size2 (data sg))) tp
    = Ok (Z.of_nat start, tp') /\
    Z.of_nat start <= width - Z.of_nat (size2 (data sg)) /\
    _tfm_pad_spectro zero sg width pad_mode tp = Ok (p, tp') /\
    shape p = (size0 (data sg), size1 (data sg), Z.to_nat width) /\
    rect p /\
    forall c f t : nat,
      (c < size0 (data sg))%nat -> (f < size1 (data sg))%nat ->
      (t < Z.to_nat width)%nat ->
      at3 p c f t =
      if (start <=? t)%nat && (t <? start + size2 (data sg))%nat
      then at3 (data sg) c f (t - start)
      else Some zero.
Proof.
  rewrite (tfm_pad_spectro_zeros _ _ _ _ Hmode). unfold shape; simpl.
  destruct (Z.ltb_spec width 0); [lia|].
  destruct (randint_ok 0 (width - Z.of_nat (size2 (data sg))) tp ltac:(lia))
    as (s & tp' & Hr & Hs).
  exists (Z.to_nat s). rewrite Z2Nat.id by lia.
  unfold bind. rewrite Hr. unfold slice_index.
  destruct (Z.ltb_spec s 0); [lia|].
  destruct (Z.ltb_spec (s + Z.of_nat (size2 (data sg))) 0); [lia|].
  rewrite Z.min_l, Z.min_l by lia.
  replace (Z.to_nat (s + Z.of_nat (size2 (data sg)) - s)) with (size2 (data sg))
    by lia.
  rewrite Nat.eqb_refl.
  eexists _, tp'. split; [reflexivity|]. split; [lia|].
  split; [reflexivity|]. split; [reflexivity|]. split.
  - apply rect_assign_time; simpl; try reflexivity; try lia;
      [apply rect_zeros|exact Hrect].
  - intros c f t Hc Hf Ht.
    now rewrite at3_assign_time_zeros by (try assumption; lia).
Qed.

Lemma pad_zeros_places_at_drawn_offset_witness :
  rect (data sample_sg) /\ lower "zeros" = "zeros"%string /\
  Z.of_nat (size2 (data sample_sg)) <= 6 /\
  exists (start : nat) p tp',
    randint 0 (6 - Z.of_nat (size2 (data sample_sg))) [5%N]
    = Ok (Z.of_nat start, tp') /\
    Z.of_nat start <= 6 - Z.of_nat (size2 (data sample_sg)) /\
    _tfm_pad_spectro 0 sample_sg 6 "zeros" [5%N] = Ok (p, tp') /\
    shape p = (size0 (data sample_sg), size1 (data sample_sg), Z.to_nat 6) /\
    rect p /\
    forall c f t : nat,
      (c < size0 (data sample_sg))%nat -> (f < size1 (data sample_sg))%nat ->
      (t < Z.to_nat 6)%nat ->
      at3 p c f t =
      if (start <=? t)%nat && (t <? start + size2 (data sample_sg))%nat
      then at3 (data sample_sg) c f (t - start)
      else Some 0.
Proof.
  assert (Hrect : rect (data sample_sg))
    by (split; [reflexivity|repeat constructor]).
  assert (Hmode : lower "zeros" = "zeros"%string) by reflexivity.
  assert (Hfit : Z.of_nat (size2 (data sample_sg)) <= 6) by (simpl; lia).
  split; [exact Hrect|]. split; [exact Hmode|]. split; [exact Hfit|].
  exact (pad_zeros_places_at_drawn_offset 0 sample_sg 6 "zeros" [5%N]
           Hrect Hmode Hfit).
Defined.

(** X3: in mode 'repeat', for any requested width >= 0 and an input with
    at least one frame, the helper makes no draw and frame [t] of the
    result is frame [t mod x] of the input, [x] being the input width:
    the content is tiled without gaps and cut at the requested width. *)
Theorem pad_repeat_tiles {A} (zero : A) (sg : AudioSpectrogram A)
    (width : Z) (pad_mode : string) (tp : tape)
    (Hrect : rect (data sg))
    (Hmode : lower pad_mode = "repeat"%string)
    (Hx : size2 (data sg) <> 0%nat)
    (Hwidth : 0 <= width) :
  exists p,
    _tfm_pad_spectro zero sg width pad_mode tp = Ok (p, tp) /\
    shape p = (size0 (data sg), size1 (data sg), Z.to_nat width) /\
    rect p /\
    forall c f t : nat,
      (c < size0 (data sg))%nat -> (f < size1 (data sg))%nat ->
      (t < Z.to_nat width)%nat ->
      at3 p c f t = at3 (data sg) c f (t mod size2 (data sg))%nat.
Proof.
  rewrite (tfm_pad_spectro_repeat _ _ _ _ Hmode). simpl.
  destruct (Nat.eqb_spec (size2 (data sg)) 0); [contradiction|].
  set (x := Z.of_nat (size2 (data sg))) in *.
  assert (Hxpos : 0 < x) by lia.
  pose proof (Z.div_pos width x Hwidth Hxpos) as Hq.
  pose proof (Z.mul_succ_div_gt width x Hxpos) as Hcover.
  destruct (Z.ltb_spec (width / x + 1) 0); [lia|].
  assert (Hw : Z.to_nat
                 (slice_index (Z.of_nat (Z.to_nat (width / x + 1) * size2 (data sg))) width
                  - slice_index (Z.of_nat (Z.to_nat (width / x + 1) * size2 (data sg))) 0)
               = Z.to_nat width).
  { unfold slice_index. destruct (Z.ltb_spec width 0); [lia|].
    rewrite Nat2Z.inj_mul, Z2Nat.id by lia. fold x. simpl. lia. }
  eexists. split; [reflexivity|]. split; [|split].
  - unfold shape, slice_time, tile_time. simpl. now rewrite Hw.
  - apply rect_slice_time, rect_tile_time, Hrect.
  - intros c f t Hc Hf Ht. destruct (rect_elim _ Hrect) as [Hlen Hall].
    destruct (lookup_lt_is_Some_2 (cells (data sg)) c ltac:(lia)) as [ch Hch].
    destruct (Hall ch (In_lookup _ _ _ Hch)) as [Hy Hrow].
    destruct (lookup_lt_is_Some_2 ch f ltac:(lia)) as [row Hrowf].
    pose proof (Hrow row (In_lookup _ _ _ Hrowf)) as Hlx.
    unfold at3, slice_time, tile_time. simpl cells. simpl size2.
    rewrite Hw. rewrite !lookup_map, Hch. simpl.
    rewrite !lookup_map, Hrowf. simpl.
    unfold slice_index at 1. simpl (0 <? 0). rewrite Z.min_l by lia.
    simpl Z.to_nat. rewrite drop_0, lookup_take_lt by lia.
    rewrite lookup_concat_replicate, Hlx; [reflexivity|].
    rewrite Hlx. apply Nat2Z.inj_lt.
    rewrite Nat2Z.inj_mul, !Z2Nat.id by lia. fold x. lia.
Qed.

Lemma pad_repeat_tiles_witness :
  rect (data sample_sg) /\ lower "Repeat" = "repeat"%string /\
  size2 (data sample_sg) <> 0%nat /\ 0 <= 10 /\
  exists p,
    _tfm_pad_spectro 0 sample_sg 10 "Repeat" [] = Ok (p, []) /\
    shape p = (size0 (data sample_sg), size1 (data sample_sg), Z.to_nat 10) /\
    rect p /\
    forall c f t : nat,
      (c < size0 (data sample_sg))%nat -> (f < size1 (data sample_sg))%nat ->
      (t < Z.to_nat 10)%nat ->
      at3 p c f t = at3 (data sample_sg) c f (t mod size2 (data sample_sg))%nat.
Proof.
  assert (Hrect : rect (data sample_sg))
    by (split; [reflexivity|repeat constructor]).
  assert (Hmode : lower "Repeat" = "repeat"%string) by reflexivity.
  assert (Hx : size2 (data sample_sg) <> 0%nat) by (simpl; lia).
  assert (Hwidth : 0 <= 10) by lia.
  split; [exact Hrect|]. split; [exact Hmode|]. split; [exact Hx|].
  split; [exact Hwidth|].
  exact (pad_repeat_tiles 0 sample_sg 10 "Repeat" [] Hrect Hmode Hx Hwidth).
Defined.

(** X4: asked for a width smaller than that of the input, the helper
    does not crop in the zero-padding modes: 'zeros' raises the
    empty-range error of its draw of an offset, and 'zeros_after' fails
    inside torch on the assignment of the wider input (for an input of
    more than one frame). *)
Theorem pad_narrower_than_input_raises {A} (zero : A)
    (sg : AudioSpectrogram A) (width : Z) (pad_mode : string) (tp : tape)
    (Hwidth : 0 <= width < Z.of_nat (size2 (data sg))) :
  (lower pad_mode = "zeros"%string ->
   _tfm_pad_spectro zero sg width pad_mode tp
   = Raise (ValueError_empty_range 0 (width - Z.of_nat (size2 (data sg))))) /\
  (lower pad_mode = "zeros_after"%string -> size2 (data sg) <> 1%nat ->
   _tfm_pad_spectro zero sg width pad_mode tp = Raise RuntimeError).
Proof.
  split.
  - intros Hmode. rewrite (tfm_pad_spectro_zeros _ _ _ _ Hmode).
    unfold shape; simpl. destruct (Z.ltb_spec width 0); [lia|].
    unfold bind. now rewrite randint_empty by lia.
  - intros Hmode Hx1. rewrite (tfm_pad_spectro_zeros_after _ _ _ _ Hmode).
    unfold shape; simpl. destruct (Z.ltb_spec width 0); [lia|].
    unfold bind, ret at 1. unfold slice_index.
    destruct (Z.ltb_spec 0 0); [lia|].
    destruct (Z.ltb_spec (0 + Z.of_nat (size2 (data sg))) 0); [lia|].
    rewrite (Z.min_r (0 + Z.of_nat (size2 (data sg))) width) by lia.
    rewrite (Z.min_l 0 width) by lia.
    destruct (Nat.eqb_spec (Z.to_nat (width - 0)) (size2 (data sg))); [lia|].
    destruct (Nat.eqb_spec (size2 (data sg)) 1); [contradiction|].
    reflexivity.
Qed.

Lemma pad_narrower_than_input_raises_witness :
  0 <= 2 < Z.of_nat (size2 (data sample_sg)) /\
  (lower "zeros" = "zeros"%string ->
   _tfm_pad_spectro 0 sample_sg 2 "zeros" [1%N]
   = Raise (ValueError_empty_range 0 (2 - Z.of_nat (size2 (data sample_sg))))) /\
  (lower "zeros" = "zeros_after"%string -> size2 (data sample_sg) <> 1%nat ->
   _tfm_pad_spectro 0 sample_sg 2 "zeros" [1%N] = Raise RuntimeError).
Proof.
  assert (Hwidth : 0 <= 2 < Z.of_nat (size2 (data sample_sg))) by (simpl; lia).
  split; [exact Hwidth|].
  exact (pad_narrower_than_input_raises 0 sample_sg 2 "zeros" [1%N] Hwidth).
Defined.

Lemma slice_tile_same {A} (t : Tensor A) (reps : nat) :
  rect t -> (1 <= reps)%nat ->
  slice_time (tile_time t reps) 0 (Z.of_nat (size2 t)) = t.
Proof.
  intros Hr Hreps. destruct (rect_elim t Hr) as [Hlen Hall].
  destruct t as [c y x cs]. unfold slice_time, tile_time, slice_index.
  cbn [size0 size1 size2 cells] in *.
  destruct (Z.ltb_spec 0 0); [lia|].
  destruct (Z.ltb_spec (Z.of_nat x) 0); [lia|].
  assert (Hw : Z.to_nat (Z.min (Z.of_nat x) (Z.of_nat (reps * x))
                         - Z.min 0 (Z.of_nat (reps * x))) = x) by nia.
  assert (Ha : Z.to_nat (Z.min 0 (Z.of_nat (reps * x))) = 0%nat) by lia.
  rewrite Hw, Ha. f_equal. rewrite map_map.
  apply map_ext_In_id. intros ch Hch. destruct (Hall ch Hch) as [Hy Hrow].
  rewrite map_map. apply map_ext_In_id. intros row Hin.
  rewrite drop_0. destruct reps as [|reps]; [lia|]. simpl.
  rewrite take_app_length'; [reflexivity|]. symmetry. now apply Hrow.
Qed.

(** X5: padding to the width the input already has changes nothing in
    any of the three modes: the helper returns the very tensor of its
    input ('repeat' being given at least one frame). *)
Theorem pad_to_current_width_is_identity {A} (zero : A)
    (sg : AudioSpectrogram A) (pad_mode : string) (tp : tape)
    (Hrect : rect (data sg))
    (Hmode : supported_pad_mode (lower pad_mode))
    (Hx : lower pad_mode = "repeat"%string -> size2 (data sg) <> 0%nat) :
  exists tp',
    _tfm_pad_spectro zero sg (Z.of_nat (size2 (data sg))) pad_mode tp
    = Ok (data sg, tp').
Proof.
  destruct (rect_elim _ Hrect) as [Hlen Hall].
  assert (Hassign :
    assign_time (zeros zero (size0 (data sg)) (size1 (data sg))
                   (Z.to_nat (Z.of_nat (size2 (data sg))))) 0 (data sg)
    = data sg).
  { unfold assign_time, zeros. rewrite Nat2Z.id.
    destruct (data sg) as [c y x cs]. simpl in *. f_equal.
    rewrite zip_with_replicate_l by lia.
    apply map_ext_In_id. intros ch Hch. destruct (Hall ch Hch) as [Hy Hrow].
    rewrite zip_with_replicate_l by lia.
    apply map_ext_In_id. intros row Hin. rewrite (Hrow row Hin).
    rewrite drop_replicate, Nat.sub_diag. simpl. apply app_nil_r. }
  assert (Hidx : forall s : Z, s = 0 ->
    Z.to_nat (slice_index (Z.of_nat (size2 (data sg)))
                (s + Z.of_nat (size2 (data sg)))
              - slice_index (Z.of_nat (size2 (data sg))) s)
    = size2 (data sg) /\
    Z.to_nat (slice_index (Z.of_nat (size2 (data sg))) s) = 0%nat).
  { intros s ->. unfold slice_index.
    destruct (Z.ltb_spec 0 0); [lia|].
    destruct (Z.ltb_spec (0 + Z.of_nat (size2 (data sg))) 0); [lia|].
    split; lia. }
  destruct Hmode as [E|[E|E]].
  - rewrite (tfm_pad_spectro_zeros _ _ _ _ E). unfold shape; simpl.
    destruct (Z.ltb_spec (Z.of_nat (size2 (data sg))) 0); [lia|].
    destruct (randint_ok 0 (Z.of_nat (size2 (data sg))
                            - Z.of_nat (size2 (data sg))) tp ltac:(lia))
      as (s & tp' & Hr & Hs).
    assert (s = 0) by lia. subst s. destruct (Hidx 0 eq_refl) as [Hw Ha].
    unfold bind. rewrite Hr, Hw, Ha, Nat.eqb_refl, Hassign.
    now exists tp'.
  - rewrite (tfm_pad_spectro_zeros_after _ _ _ _ E). unfold shape; simpl.
    destruct (Z.ltb_spec (Z.of_nat (size2 (data sg))) 0); [lia|].
    destruct (Hidx 0 eq_refl) as [Hw Ha].
    unfold bind, ret at 1. rewrite Hw, Ha, Nat.eqb_refl, Hassign.
    now exists tp.
  - rewrite (tfm_pad_spectro_repeat _ _ _ _ E). simpl.
    specialize (Hx E).
    destruct (Nat.eqb_spec (size2 (data sg)) 0); [contradiction|].
    rewrite Z.div_same by lia.
    change (1 + 1 <? 0) with false. cbv iota.
    exists tp. unfold ret. do 2 f_equal.
    apply slice_tile_same; [exact Hrect|simpl; lia].
Qed.

Lemma pad_to_current_width_is_identity_witness :
  rect (data sample_sg) /\
  supported_pad_mode (lower "ZEROS") /\
  (lower "ZEROS" = "repeat"%string -> size2 (data sample_sg) <> 0%nat) /\
  exists tp',
    _tfm_pad_spectro 0 sample_sg (Z.of_nat (size2 (data sample_sg))) "ZEROS"
      [9%N; 4%N]
    = Ok (data sample_sg, tp').
Proof.
  assert (Hrect : rect (data sample_sg))
    by (split; [reflexivity|repeat constructor]).
  assert (Hmode : supported_pad_mode (lower "ZEROS")) by (left; reflexivity).
  assert (Hx : lower "ZEROS" = "repeat"%string ->
               size2 (data sample_sg) <> 0%nat) by (simpl; lia).
  split; [exact Hrect|]. split; [exact Hmode|]. split; [exact Hx|].
  exact (pad_to_current_width_is_identity 0 sample_sg "ZEROS" [9%N; 4%N]
           Hrect Hmode Hx).
Defined.

(** ** CropTime: the window, a second application, the pad mode *)

Lemma at3_slice_time {A} (t : Tensor A) (start stop : Z) (c f i : nat) :
  0 <= start <= stop -> stop <= Z.of_nat (size2 t) ->
  (i < Z.to_nat (stop - start))%nat ->
  at3 (slice_time t start stop) c f i = at3 t c f (Z.to_nat start + i)%nat.
Proof.
  intros Hs He Hi. unfold at3, slice_time, slice_index. simpl cells.
  destruct (Z.ltb_spec start 0); [lia|].
  destruct (Z.ltb_spec stop 0); [lia|].
  rewrite !Z.min_l by lia. rewrite lookup_map.
  destruct (cells t !! c) as [ch|]; [simpl|reflexivity].
  rewrite lookup_map. destruct (ch !! f) as [row|]; [simpl|reflexivity].
  now rewrite lookup_take_lt, lookup_drop by lia.
Qed.

(** X6: on the crop branch the output is a window of consecutive frames
    of the input: frame [t] of the output is frame [crop_start + t] of
    the input, for the drawn [crop_start], which lies in
    [0, w_sg - w_crop]; the attributes assigned are
    sample_start = crop_start * hop_length and
    sample_end = sample_start + duration * sr. *)
Theorem CropTime_crop_is_window {A} (zero : A) (self : CropTime.t)
    (sg : AudioSpectrogram A) (tp : tape) (w : Z)
    (Hw : CropTime.w_crop (sr sg) (CropTime.duration self) (hop_length sg)
          = Ok w)
    (Hcrop : 0 <= w < Z.of_nat (size2 (data sg))) :
  exists (crop_start : nat) out tp',
    CropTime.encodes zero self sg tp = Ok (out, tp') /\
    Z.of_nat crop_start <= Z.of_nat (size2 (data sg)) - w /\
    CropTime.sg_crop_attrs out =
      [("sample_start"%string, Z.of_nat crop_start * hop_length sg);
       ("sample_end"%string,
        Z.of_nat crop_start * hop_length sg + CropTime.duration self * sr sg)] /\
    sr (CropTime.returned out) = sr sg /\
    hop_length (CropTime.returned out) = hop_length sg /\
    shape (data (CropTime.returned out))
    = (size0 (data sg), size1 (data sg), Z.to_nat w) /\
    forall c f t : nat,
      (t < Z.to_nat w)%nat ->
      at3 (data (CropTime.returned out)) c f t
      = at3 (data sg) c f (crop_start + t)%nat.
Proof.
  destruct (CropTime_encodes_crop zero self sg tp w Hw ltac:(lia))
    as (cs & tp' & Hcs & He).
  exists (Z.to_nat cs). rewrite Z2Nat.id by lia.
  eexists _, tp'. split; [exact He|]. simpl.
  split; [lia|]. split; [reflexivity|]. split; [reflexivity|].
  split; [reflexivity|]. split.
  - unfold shape, slice_time, slice_index; simpl. do 2 f_equal.
    destruct (Z.ltb_spec cs 0); [lia|].
    destruct (Z.ltb_spec (cs + w) 0); lia.
  - intros c f t Ht. apply at3_slice_time; lia.
Qed.

Lemma CropTime_crop_is_window_witness :
  let self := CropTime.mk 20 "zeros" in
  CropTime.w_crop (sr sample_sg) (CropTime.duration self)
    (hop_length sample_sg) = Ok 3 /\
  0 <= 3 < Z.of_nat (size2 (data sample_sg)) /\
  exists (crop_start : nat) out tp',
    CropTime.encodes 0 self sample_sg [3%N] = Ok (out, tp') /\
    Z.of_nat crop_start <= Z.of_nat (size2 (data sample_sg)) - 3 /\
    CropTime.sg_crop_attrs out =
      [("sample_start"%string, Z.of_nat crop_start * hop_length sample_sg);
       ("sample_end"%string,
        Z.of_nat crop_start * hop_length sample_sg
        + CropTime.duration self * sr sample_sg)] /\
    sr (CropTime.returned out) = sr sample_sg /\
    hop_length (CropTime.returned out) = hop_length sample_sg /\
    shape (data (CropTime.returned out))
    = (size0 (data sample_sg), size1 (data sample_sg), Z.to_nat 3) /\
    forall c f t : nat,
      (t < Z.to_nat 3)%nat ->
      at3 (data (CropTime.returned out)) c f t
      = at3 (data sample_sg) c f (crop_start + t)%nat.
Proof.
  intros self.
  assert (Hw : CropTime.w_crop (sr sample_sg) (CropTime.duration self)
                 (hop_length sample_sg) = Ok 3) by reflexivity.
  assert (Hcrop : 0 <= 3 < Z.of_nat (size2 (data sample_sg))) by (simpl; lia).
  split; [exact Hw|]. split; [exact Hcrop|].
  exact (CropTime_crop_is_window 0 self sample_sg [3%N] 3 Hw Hcrop).
Defined.

(** Whatever the mode, a result of the pad helper has the requested
    width. *)
Lemma tfm_pad_spectro_inv_width {A} (zero : A) (sg : AudioSpectrogram A)
    (width : Z) (pad_mode : string) (tp : tape) p tp' :
  _tfm_pad_spectro zero sg width pad_mode tp = Ok (p, tp') ->
  size2 p = Z.to_nat width.
Proof.
  intros H.
  destruct (String.eqb_spec (lower pad_mode) "zeros") as [Ez|Nz];
    [|destruct (String.eqb_spec (lower pad_mode) "zeros_after") as [Ea|Na];
      [|destruct (String.eqb_spec (lower pad_mode) "repeat") as [Er|Nr]]].
  - rewrite (tfm_pad_spectro_zeros _ _ _ _ Ez) in H.
    unfold shape in H; simpl in H.
    destruct (width <? 0); [discriminate|].
    apply bind_Ok_inv in H as (s & tp0 & _ & H). revert H.
    repeat (case (_ =? _)%nat); unfold ret, raise; intros [= <- <-];
      reflexivity.
  - rewrite (tfm_pad_spectro_zeros_after _ _ _ _ Ea) in H.
    unfold shape in H; simpl in H.
    destruct (width <? 0); [discriminate|].
    apply bind_Ok_inv in H as (s & tp0 & _ & H). revert H.
    repeat (case (_ =? _)%nat); unfold ret, raise; intros [= <- <-];
      reflexivity.
  - rewrite (tfm_pad_spectro_repeat _ _ _ _ Er) in H. simpl in H.
    destruct (Nat.eqb_spec (size2 (data sg)) 0); [discriminate|].
    set (x := Z.of_nat (size2 (data sg))) in *.
    assert (Hxpos : 0 < x) by lia.
    destruct (Z.ltb_spec (width / x + 1) 0); [discriminate|].
    injection H as <- <-.
    unfold slice_time, tile_time, slice_index; simpl.
    destruct (Z.ltb_spec 0 0); [lia|].
    rewrite Nat2Z.inj_mul, Z2Nat.id by lia. fold x.
    pose proof (Z.mul_succ_div_gt width x Hxpos) as Hcover.
    destruct (Z.ltb_spec width 0) as [Hneg|Hnn]; [|nia].
    pose proof (Z.div_lt_upper_bound width x 0 Hxpos ltac:(lia)) as Hq.
    replace (width / x + 1) with 0 by lia. lia.
  - rewrite tfm_pad_spectro_unsupported in H; [discriminate|].
    unfold supported_pad_mode. tauto.
Qed.

(** X7: CropTime is idempotent.  Whenever a call returns, for a target
    width that is not negative, a second call with the same duration on
    the returned spectrogram gives it back unchanged, draws nothing and
    assigns no attribute. *)
Theorem CropTime_idempotent {A} (zero : A) (self : CropTime.t)
    (sg : AudioSpectrogram A) (tp : tape) (w : Z) out tp'
    (Hw : CropTime.w_crop (sr sg) (CropTime.duration self) (hop_length sg)
          = Ok w)
    (Hpos : 0 <= w)
    (Hfirst : CropTime.encodes zero self sg tp = Ok (out, tp')) :
  forall tp2,
    CropTime.encodes zero self (CropTime.returned out) tp2
    = Ok (CropTime.mkOutcome (CropTime.returned out) [], tp2).
Proof.
  intros tp2.
  assert (Hout : sr (CropTime.returned out) = sr sg /\
                 hop_length (CropTime.returned out) = hop_length sg /\
                 Z.of_nat (size2 (data (CropTime.returned out))) = w).
  { destruct (Z.lt_trichotomy (Z.of_nat (size2 (data sg))) w) as [Hlt|[Heq|Hgt]].
    - rewrite (CropTime_encodes_pad zero self sg tp w Hw Hlt) in Hfirst.
      destruct (_tfm_pad_spectro _ _ _ _ _) as [[p tp0]|e] eqn:Hp;
        [|discriminate].
      injection Hfirst as <- <-. simpl.
      rewrite (tfm_pad_spectro_inv_width _ _ _ _ _ _ _ Hp). split; [|split]; lia.
    - rewrite (CropTime_encodes_equal zero self sg tp w Hw Heq) in Hfirst.
      injection Hfirst as <- <-. simpl. auto.
    - destruct (CropTime_encodes_crop zero self sg tp w Hw Hgt)
        as (cs & tp0 & Hcs & He).
      rewrite He in Hfirst. injection Hfirst as <- <-. simpl.
      split; [reflexivity|]. split; [reflexivity|].
      unfold slice_index.
      destruct (Z.ltb_spec cs 0); [lia|].
      destruct (Z.ltb_spec (cs + w) 0); lia. }
  destruct Hout as (Hsr & Hhop & Hwidth).
  apply CropTime_encodes_equal with (w := w); [|exact Hwidth].
  now rewrite Hsr, Hhop.
Qed.

Lemma CropTime_idempotent_witness :
  let self := CropTime.mk 60 "repeat" in
  let out := CropTime.mkOutcome
               (set_data sample_sg
                  (slice_time (tile_time (data sample_sg) 2) 0 7)) [] in
  CropTime.w_crop (sr sample_sg) (CropTime.duration self)
    (hop_length sample_sg) = Ok 7 /\
  0 <= 7 /\
  CropTime.encodes 0 self sample_sg [1%N] = Ok (out, [1%N]) /\
  forall tp2,
    CropTime.encodes 0 self (CropTime.returned out) tp2
    = Ok (CropTime.mkOutcome (CropTime.returned out) [], tp2).
Proof.
  intros self out.
  assert (Hw : CropTime.w_crop (sr sample_sg) (CropTime.duration self)
                 (hop_length sample_sg) = Ok 7) by reflexivity.
  assert (Hpos : 0 <= 7) by lia.
  assert (Hfirst : CropTime.encodes 0 self sample_sg [1%N] = Ok (out, [1%N]))
    by reflexivity.
  split; [exact Hw|]. split; [exact Hpos|]. split; [exact Hfirst|].
  exact (CropTime_idempotent 0 self sample_sg [1%N] 7 out [1%N] Hw Hpos Hfirst).
Defined.

(** X8: the pad mode is looked at only when padding is needed.  With a
    non-zero hop length, a call raises the unsupported-mode error exactly
    when the input is narrower than the target width and the mode,
    lowercased, is none of the three; on an input at least as wide as the
    target, any mode string passes unnoticed. *)
Theorem CropTime_pad_mode_checked_only_when_padding {A} (zero : A)
    (self : CropTime.t) (sg : AudioSpectrogram A) (tp : tape) (w : Z)
    (Hw : CropTime.w_crop (sr sg) (CropTime.duration self) (hop_length sg)
          = Ok w) :
  ((exists m, CropTime.encodes zero self sg tp = Raise (ValueError_pad_mode m))
   <-> Z.of_nat (size2 (data sg)) < w
       /\ ~ supported_pad_mode (lower (CropTime.pad_mode self))) /\
  (w <= Z.of_nat (size2 (data sg)) ->
   exists out tp', CropTime.encodes zero self sg tp = Ok (out, tp')).
Proof.
  assert (Hwide : w <= Z.of_nat (size2 (data sg)) ->
            exists out tp', CropTime.encodes zero self sg tp = Ok (out, tp')).
  { intros Hle. destruct (Z.eq_dec (Z.of_nat (size2 (data sg))) w) as [Heq|Hne].
    - rewrite (CropTime_encodes_equal zero self sg tp w Hw Heq). eauto.
    - destruct (CropTime_encodes_crop zero self sg tp w Hw ltac:(lia))
        as (cs & tp' & _ & He). rewrite He. eauto. }
  split; [|exact Hwide]. split.
  - intros [m Hm].
    destruct (Z.lt_ge_cases (Z.of_nat (size2 (data sg))) w) as [Hlt|Hge].
    + split; [exact Hlt|]. intros Hs.
      rewrite (CropTime_encodes_pad zero self sg tp w Hw Hlt) in Hm.
      destruct (_tfm_pad_spectro _ _ _ _ _) as [[p tp0]|e] eqn:Hp;
        [discriminate|].
      injection Hm as ->.
      now apply (tfm_pad_spectro_supported zero sg w _ tp m Hs).
    + destruct (Hwide Hge) as (out & tp' & He). rewrite He in Hm. discriminate.
  - intros [Hlt Hn]. exists (lower (CropTime.pad_mode self)).
    rewrite (CropTime_encodes_pad zero self sg tp w Hw Hlt).
    now rewrite tfm_pad_spectro_unsupported.
Qed.

Lemma CropTime_pad_mode_checked_only_when_padding_witness :
  let self := CropTime.mk 20 "mirror" in
  CropTime.w_crop (sr sample_sg) (CropTime.duration self)
    (hop_length sample_sg) = Ok 3 /\
  ((exists m, CropTime.encodes 0 self sample_sg [] = Raise (ValueError_pad_mode m))
   <-> Z.of_nat (size2 (data sample_sg)) < 3
       /\ ~ supported_pad_mode (lower (CropTime.pad_mode self))) /\
  (3 <= Z.of_nat (size2 (data sample_sg)) ->
   exists out tp', CropTime.encodes 0 self sample_sg [] = Ok (out, tp')).
Proof.
  intros self.
  assert (Hw : CropTime.w_crop (sr sample_sg) (CropTime.duration self)
                 (hop_length sample_sg) = Ok 3) by reflexivity.
  split; [exact Hw|].
  exact (CropTime_pad_mode_checked_only_when_padding 0 self sample_sg [] 3 Hw).
Defined.

(** ** MaskFreq: any number of masks *)

(** What a loop of [n] masks leaves: [n] bands of [size] rows, the first
    at [start] and each within the bins, on which every cell holds the
    fill value of its channel. *)
Lemma mask_loop_rows {A} (size : Z) (mask_val : list A) (y x n : nat) :
  forall start (sg : Tensor A) tp d tp',
  rect sg -> length mask_val = size0 sg -> y = size1 sg -> x = size2 sg ->
  MaskFreq.mask_loop size mask_val y x n start sg tp = Ok (d, tp') ->
  exists starts : list Z,
    length starts = n /\
    (n <> 0%nat -> head starts = Some start) /\
    (forall st, In st starts -> 0 <= st <= Z.of_nat y - size) /\
    forall c f i v,
      mask_val !! c = Some v -> (f < y)%nat -> (i < x)%nat ->
      at3 d c f i =
      if existsb (fun st => (st <=? Z.of_nat f) && (Z.of_nat f <? st + size))
                 starts
      then Some v else at3 sg c f i.
Proof.
  induction n as [|n IH]; intros start sg tp d tp' Hr Hlen Hy Hx H.
  - injection H as <- <-. exists [].
    split; [reflexivity|]. split; [congruence|]. split; [intros st []|].
    reflexivity.
  - simpl in H.
    destruct (Z.ltb_spec size 0); [discriminate|].
    destruct (Z.leb_spec 0 start); simpl in H; [|discriminate].
    destruct (Z.leb_spec start (Z.of_nat y - size));
      simpl in H; [|discriminate].
    apply bind_Ok_inv in H as (s' & tp1 & _ & H).
    assert (Hr' : rect (MaskFreq.assign_band sg (Z.to_nat start)
                          (MaskFreq.make_mask (Z.to_nat size) x mask_val))).
    { subst x. apply rect_assign_band; [assumption|assumption|lia]. }
    destruct (IH _ _ _ _ _ Hr' Hlen Hy Hx H)
      as (starts & Hn & _ & Hin & Hcells).
    exists (start :: starts).
    split; [simpl; now rewrite Hn|]. split; [reflexivity|]. split.
    + intros st [<-|Hst]; [lia|now apply Hin].
    + intros c f i v Hv Hf Hi. rewrite (Hcells c f i v Hv Hf Hi).
      simpl existsb.
      destruct (existsb _ starts); [now rewrite orb_true_r|].
      rewrite orb_false_r.
      destruct (rect_elim sg Hr) as [Hc _].
      destruct (lookup_lt_is_Some_2 (cells sg) c) as [ch Hch].
      { rewrite Hc, <- Hlen. eapply lookup_lt_Some; eassumption. }
      subst x y.
      rewrite (at3_assign_band sg (Z.to_nat start) (Z.to_nat size) mask_val
                 c f i ch v Hr ltac:(lia) Hch Hv Hf Hi).
      destruct (Nat.leb_spec (Z.to_nat start) f);
        destruct (Z.leb_spec start (Z.of_nat f)); try lia; simpl;
        [|reflexivity].
      destruct (Nat.ltb_spec f (Z.to_nat start + Z.to_nat size));
        destruct (Z.ltb_spec (Z.of_nat f) (start + size)); try lia;
        reflexivity.
Qed.

(** The fill value of a channel, as a lookup in the list that [encodes]
    builds. *)
Lemma mask_val_lookup {A} (mean : list A -> A) (v : option A)
    (t : Tensor A) (c : nat) (ch : list (list A)) :
  rect t -> cells t !! c = Some ch ->
  ifnone (option_map (replicate (size0 t)) v)
         (map (fun ch => mean (concat ch)) (cells t)) !! c
  = Some (ifnone v (mean (concat ch))).
Proof.
  intros Hr Hch. destruct (rect_elim t Hr) as [Hlen _].
  destruct v as [a|]; simpl.
  - apply lookup_replicate_2. rewrite <- Hlen.
    eapply lookup_lt_Some; eassumption.
  - now rewrite lookup_map, Hch.
Qed.

Lemma mask_val_length {A} (mean : list A -> A) (v : option A) (t : Tensor A) :
  rect t ->
  length (ifnone (option_map (replicate (size0 t)) v)
            (map (fun ch => mean (concat ch)) (cells t))) = size0 t.
Proof.
  intros Hr. destruct (rect_elim t Hr) as [Hlen _].
  destruct v; simpl; [apply length_replicate|now rewrite length_map].
Qed.

Lemma MaskFreq_encodes_Ok_channels {A} (mean : list A -> A) self
    (sg : AudioSpectrogram A) tp out tp' :
  MaskFreq.encodes mean self sg tp = Ok (out, tp') ->
  size0 (data sg) <> 0%nat.
Proof.
  intros H E. revert H.
  unfold MaskFreq.encodes, MaskFreq.channel_mean, bind, lift.
  rewrite E. discriminate.
Qed.

(** X9: whatever the number of masks, a call that returns has blanked
    whole bands of rows and nothing else.  There are num_masks starts, each
    in [0, num_freq_bins - size], the first being the supplied start when
    there is one, such that a cell holds the fill value of its channel
    (the supplied value, or else the mean of that channel of the input,
    taken before any mask is written) when its row lies in one of the
    bands [start, start + size), and is the cell of the input
    otherwise. *)
Theorem MaskFreq_masks_whole_rows {A} (mean : list A -> A)
    (self : MaskFreq.t A) (sg : AudioSpectrogram A) (tp : tape) out tp'
    (Hrect : rect (data sg))
    (Hok : MaskFreq.encodes mean self sg tp = Ok (out, tp')) :
  exists starts : list Z,
    length starts = Z.to_nat (MaskFreq.num_masks self) /\
    (forall k, MaskFreq.start self = Some k -> 1 <= MaskFreq.num_masks self ->
       head starts = Some k) /\
    (forall st, In st starts ->
       0 <= st <= Z.of_nat (size1 (data sg)) - MaskFreq.size self) /\
    forall (c f i : nat) (ch : list (list A)),
      cells (data sg) !! c = Some ch ->
      (f < size1 (data sg))%nat -> (i < size2 (data sg))%nat ->
      at3 (data out) c f i =
      if existsb (fun st => (st <=? Z.of_nat f)
                            && (Z.of_nat f <? st + MaskFreq.size self))
                 starts
      then Some (ifnone (MaskFreq.val self) (mean (concat ch)))
      else at3 (data sg) c f i.
Proof.
  pose proof (MaskFreq_encodes_Ok_channels _ _ _ _ _ _ Hok) as Hc.
  rewrite MaskFreq_encodes_unfold in Hok by assumption. cbv zeta in Hok.
  destruct (randint _ _ tp) as [[r tp1]|e]; [|discriminate].
  destruct (MaskFreq.mask_loop _ _ _ _ _ _ _ _) as [[d tp2]|e] eqn:Hl;
    [|discriminate].
  injection Hok as <- <-.
  destruct (mask_loop_rows _ _ _ _ _ _ _ _ _ _ Hrect
              (mask_val_length mean (MaskFreq.val self) _ Hrect)
              eq_refl eq_refl Hl) as (starts & Hlen & Hhead & Hin & Hcells).
  exists starts. split; [exact Hlen|]. split; [|split; [exact Hin|]].
  - intros k Hk Hn. rewrite Hhead by lia. now rewrite Hk.
  - intros c f i ch Hch Hf Hi. simpl data.
    apply Hcells; [|assumption|assumption].
    now apply mask_val_lookup.
Qed.

Lemma MaskFreq_masks_whole_rows_witness :
  let self := MaskFreq.mk 2 1 (Some 0) (Some 0) in
  let out := mkSpectrogram 16000 160
               (mkTensor 2 3 4
                  [[[0; 0; 0; 0]; [0; 0; 0; 0]; [9; 10; 11; 12]];
                   [[0; 0; 0; 0]; [0; 0; 0; 0]; [90; 100; 110; 120]]]) in
  rect (data sample_sg) /\
  MaskFreq.encodes mean_Z self sample_sg [5%N; 7%N] = Ok (out, []) /\
  exists starts : list Z,
    length starts = Z.to_nat (MaskFreq.num_masks self) /\
    (forall k, MaskFreq.start self = Some k -> 1 <= MaskFreq.num_masks self ->
       head starts = Some k) /\
    (forall st, In st starts ->
       0 <= st <= Z.of_nat (size1 (data sample_sg)) - MaskFreq.size self) /\
    forall (c f i : nat) (ch : list (list Z)),
      cells (data sample_sg) !! c = Some ch ->
      (f < size1 (data sample_sg))%nat -> (i < size2 (data sample_sg))%nat ->
      at3 (data out) c f i =
      if existsb (fun st => (st <=? Z.of_nat f)
                            && (Z.of_nat f <? st + MaskFreq.size self))
                 starts
      then Some (ifnone (MaskFreq.val self) (mean_Z (concat ch)))
      else at3 (data sample_sg) c f i.
Proof.
  intros self out.
  assert (Hrect : rect (data sample_sg))
    by (split; [reflexivity|repeat constructor]).
  assert (Hok : MaskFreq.encodes mean_Z self sample_sg [5%N; 7%N]
                = Ok (out, [])) by reflexivity.
  split; [exact Hrect|]. split; [exact Hok|].
  exact (MaskFreq_masks_whole_rows mean_Z self sample_sg [5%N; 7%N] out []
           Hrect Hok).
Defined.

(** X10: with no supplied start, a non-negative size that does not exceed
    the number of frequency bins and at least one channel, MaskFreq never
    raises, whatever the number of masks and the random draws: every
    start it validates was drawn in the valid range.  The shape and the
    settings are kept. *)
Theorem MaskFreq_random_start_never_raises {A} (mean : list A -> A)
    (self : MaskFreq.t A) (sg : AudioSpectrogram A) (tp : tape)
    (Hc : size0 (data sg) <> 0%nat)
    (Hstart : MaskFreq.start self = None)
    (Hsize : 0 <= MaskFreq.size self <= Z.of_nat (size1 (data sg))) :
  exists out tp',
    MaskFreq.encodes mean self sg tp = Ok (out, tp') /\
    shape (data out) = shape (data sg) /\
    sr out = sr sg /\ hop_length out = hop_length sg.
Proof.
  rewrite MaskFreq_encodes_unfold by assumption. cbv zeta.
  destruct (randint_ok 0 (Z.of_nat (size1 (data sg)) - MaskFreq.size self)
              tp ltac:(lia)) as (r & tp1 & Hr & Hrange).
  rewrite Hr, Hstart. simpl ifnone.
  match goal with
  | |- context [MaskFreq.mask_loop ?s ?mv ?y ?x ?n r ?d tp1] =>
      destruct (mask_loop_ok s mv y x n r d tp1 ltac:(lia) Hrange)
        as (d' & tp2 & Hd & Hshape)
  end.
  rewrite Hd. exists (set_data sg d'), tp2.
  split; [reflexivity|]. split; [exact Hshape|]. split; reflexivity.
Qed.

Lemma MaskFreq_random_start_never_raises_witness :
  let self := MaskFreq.mk 3 2 None None in
  size0 (data sample_sg) <> 0%nat /\
  MaskFreq.start self = None /\
  0 <= MaskFreq.size self <= Z.of_nat (size1 (data sample_sg)) /\
  exists out tp',
    MaskFreq.encodes mean_Z self sample_sg [8%N; 3%N] = Ok (out, tp') /\
    shape (data out) = shape (data sample_sg) /\
    sr out = sr sample_sg /\ hop_length out = hop_length sample_sg.
Proof.
  intros self.
  assert (Hc : size0 (data sample_sg) <> 0%nat) by (simpl; lia).
  assert (Hstart : MaskFreq.start self = None) by reflexivity.
  assert (Hsize : 0 <= MaskFreq.size self <= Z.of_nat (size1 (data sample_sg)))
    by (simpl; lia).
  split; [exact Hc|]. split; [exact Hstart|]. split; [exact Hsize|].
  exact (MaskFreq_random_start_never_raises mean_Z self sample_sg [8%N; 3%N]
           Hc Hstart Hsize).
Defined.

Lemma randint_tape a b tp v tp' :
  randint a b tp = Ok (v, tp') -> tp' = drop 1 tp.
Proof.
  unfold randint, bind, draw, ret, raise.
  destruct (b <? a); [discriminate|].
  destruct tp as [|n tp0]; intros [= _ <-]; reflexivity.
Qed.

Lemma mask_loop_tape {A} (size : Z) (mask_val : list A) (y x n : nat) :
  forall start (sg : Tensor A) tp d tp',
  MaskFreq.mask_loop size mask_val y x n start sg tp = Ok (d, tp') ->
  tp' = drop n tp.
Proof.
  induction n as [|n IH]; intros start sg tp d tp' H.
  - now injection H as <- <-.
  - simpl in H.
    destruct (size <? 0); [discriminate|].
    destruct (negb _); [discriminate|].
    apply bind_Ok_inv in H as (s' & tp1 & Hr & H).
    apply IH in H. apply randint_tape in Hr. subst.
    rewrite drop_drop. f_equal.
Qed.

(** X11: a call that returns has consumed exactly num_masks + 1 random
    draws: one before the loop, made even when a start is supplied, and
    one at the end of every iteration, the last of which is never used. *)
Theorem MaskFreq_draw_count {A} (mean : list A -> A)
    (self : MaskFreq.t A) (sg : AudioSpectrogram A) (tp : tape) out tp'
    (Hok : MaskFreq.encodes mean self sg tp = Ok (out, tp')) :
  tp' = drop (S (Z.to_nat (MaskFreq.num_masks self))) tp.
Proof.
  pose proof (MaskFreq_encodes_Ok_channels _ _ _ _ _ _ Hok) as Hc.
  rewrite MaskFreq_encodes_unfold in Hok by assumption. cbv zeta in Hok.
  destruct (randint _ _ tp) as [[r tp1]|e] eqn:Hr; [|discriminate].
  destruct (MaskFreq.mask_loop _ _ _ _ _ _ _ _) as [[d tp2]|e] eqn:Hl;
    [|discriminate].
  injection Hok as <- <-.
  apply mask_loop_tape in Hl. apply randint_tape in Hr. subst.
  rewrite drop_drop. reflexivity.
Qed.

Lemma MaskFreq_draw_count_witness :
  let self := MaskFreq.mk 1 2 (Some 1) None in
  let out := mkSpectrogram 16000 160
               (mkTensor 2 3 4
                  [[[1; 2; 3; 4]; [6; 6; 6; 6]; [6; 6; 6; 6]];
                   [[10; 20; 30; 40]; [65; 65; 65; 65]; [65; 65; 65; 65]]]) in
  MaskFreq.encodes mean_Z self sample_sg [4%N; 5%N; 6%N] = Ok (out, [6%N]) /\
  [6%N] = drop (S (Z.to_nat (MaskFreq.num_masks self))) [4%N; 5%N; 6%N].
Proof.
  intros self out.
  assert (Hok : MaskFreq.encodes mean_Z self sample_sg [4%N; 5%N; 6%N]
                = Ok (out, [6%N])) by reflexivity.
  split; [exact Hok|].
  exact (MaskFreq_draw_count mean_Z self sample_sg [4%N; 5%N; 6%N] out [6%N]
           Hok).
Defined.

(** The result of one mask at a supplied valid start, in closed form. *)
Lemma MaskFreq_one_mask {A} (mean : list A -> A) (s k : Z) (v : option A)
    (sg : AudioSpectrogram A) (tp : tape) :
  size0 (data sg) <> 0%nat -> 0 <= s ->
  0 <= k <= Z.of_nat (size1 (data sg)) - s ->
  exists tp',
    MaskFreq.encodes mean (MaskFreq.mk 1 s (Some k) v) sg tp =
    Ok (set_data sg
          (MaskFreq.assign_band (data sg) (Z.to_nat k)
             (MaskFreq.make_mask (Z.to_nat s) (size2 (data sg))
                (ifnone (option_map (replicate (size0 (data sg))) v)
                   (map (fun ch => mean (concat ch)) (cells (data sg)))))),
        tp').
Proof.
  intros Hc Hs Hk.
  rewrite MaskFreq_encodes_unfold by assumption. cbv zeta.
  cbn [MaskFreq.size MaskFreq.num_masks MaskFreq.start MaskFreq.val ifnone].
  destruct (randint_ok 0 (Z.of_nat (size1 (data sg)) - s) tp ltac:(lia))
    as (r & tp1 & Hr & _).
  rewrite Hr. change (Z.to_nat 1) with 1%nat.
  rewrite mask_loop_step by assumption.
  destruct (randint_ok 0 (Z.of_nat (size1 (data sg)) - s) tp1 ltac:(lia))
    as (r' & tp2 & Hr' & _).
  rewrite Hr'. simpl MaskFreq.mask_loop. unfold ret. now exists tp2.
Qed.

Lemma assign_band_twice {A} (t : Tensor A) (start : nat)
    (mask : list (list (list A))) :
  (forall ch, In ch (cells t) -> (start <= length ch)%nat) ->
  MaskFreq.assign_band (MaskFreq.assign_band t start mask) start mask
  = MaskFreq.assign_band t start mask.
Proof.
  intros H. unfold MaskFreq.assign_band. simpl. f_equal.
  revert H. generalize (cells t). clear t.
  induction mask as [|m mask IH]; intros cs H; [reflexivity|].
  destruct cs as [|ch cs]; [reflexivity|]. simpl. f_equal.
  - assert (Hch : (start <= length ch)%nat) by (apply H; now left).
    rewrite take_app_length' by (rewrite length_take; lia).
    do 2 f_equal.
    rewrite <- drop_drop.
    rewrite (drop_app_length' (take start ch)) by (rewrite length_take; lia).
    now rewrite drop_app_length'.
  - apply IH. intros ch' Hch'. apply H. now right.
Qed.

(** X12: a mask with a supplied fill value and a supplied start is
    idempotent: applying the same one-mask transform to its own output
    returns that output again, whatever is drawn the second time. *)
Theorem MaskFreq_supplied_fill_idempotent {A} (mean : list A -> A)
    (s k : Z) (v : A) (sg : AudioSpectrogram A) (tp : tape) out tp'
    (Hrect : rect (data sg))
    (Hs : 0 <= s)
    (Hk : 0 <= k <= Z.of_nat (size1 (data sg)) - s)
    (Hok : MaskFreq.encodes mean (MaskFreq.mk 1 s (Some k) (Some v)) sg tp
           = Ok (out, tp')) :
  forall tp2, exists tp3,
    MaskFreq.encodes mean (MaskFreq.mk 1 s (Some k) (Some v)) out tp2
    = Ok (out, tp3).
Proof.
  intros tp2.
  pose proof (MaskFreq_encodes_Ok_channels _ _ _ _ _ _ Hok) as Hc.
  destruct (MaskFreq_one_mask mean s k (Some v) sg tp Hc Hs Hk) as (tp0 & E).
  rewrite E in Hok. injection Hok as Hout _. simpl ifnone in Hout.
  subst out.
  set (X := MaskFreq.assign_band (data sg) (Z.to_nat k)
              (MaskFreq.make_mask (Z.to_nat s) (size2 (data sg))
                 (replicate (size0 (data sg)) v))).
  destruct (MaskFreq_one_mask mean s k (Some v) (set_data sg X) tp2
              Hc Hs Hk) as (tp3 & E2).
  exists tp3. rewrite E2. f_equal. f_equal.
  unfold set_data. cbn [sr hop_length data]. f_equal.
  cbn [ifnone option_map]. unfold X at 2 3 4.
  cbn [MaskFreq.assign_band size0 size1 size2].
  apply assign_band_twice.
  destruct (rect_elim _ Hrect) as [_ Hall].
  intros ch Hch. destruct (Hall ch Hch) as [Hy _]. lia.
Qed.

Lemma MaskFreq_supplied_fill_idempotent_witness :
  let self := MaskFreq.mk 1 2 (Some 1) (Some 7) in
  let out := mkSpectrogram 16000 160
               (mkTensor 2 3 4
                  [[[1; 2; 3; 4]; [7; 7; 7; 7]; [7; 7; 7; 7]];
                   [[10; 20; 30; 40]; [7; 7; 7; 7]; [7; 7; 7; 7]]]) in
  rect (data sample_sg) /\ 0 <= 2 /\
  0 <= 1 <= Z.of_nat (size1 (data sample_sg)) - 2 /\
  MaskFreq.encodes mean_Z self sample_sg [] = Ok (out, []) /\
  forall tp2, exists tp3,
    MaskFreq.encodes mean_Z self out tp2 = Ok (out, tp3).
Proof.
  intros self out.
  assert (Hrect : rect (data sample_sg))
    by (split; [reflexivity|repeat constructor]).
  assert (Hs : 0 <= 2) by lia.
  assert (Hk : 0 <= 1 <= Z.of_nat (size1 (data sample_sg)) - 2) by (simpl; lia).
  assert (Hok : MaskFreq.encodes mean_Z self sample_sg [] = Ok (out, []))
    by reflexivity.
  split; [exact Hrect|]. split; [exact Hs|]. split; [exact Hk|].
  split; [exact Hok|].
  exact (MaskFreq_supplied_fill_idempotent mean_Z 2 1 7 sample_sg [] out []
           Hrect Hs Hk Hok).
Defined.

(** ** MaskTime: the masked frames, and the two transpositions *)

(** X13: one mask of [s] frames at the supplied start [k], with
    0 <= k <= num_time_frames - s.  MaskTime returns, keeps the shape and
    the settings, and in every channel and every frequency row the time
    frames k, ..., k+s-1 hold the fill value (the supplied value, or else
    the mean taken over the transposed channel of the input); every other
    cell holds what the input held. *)
Theorem MaskTime_fixed_start_band {A} (mean : list A -> A) (s k : Z)
    (v : option A) (sg : AudioSpectrogram A) (tp : tape)
    (Hrect : rect (data sg))
    (Hc : size0 (data sg) <> 0%nat)
    (Hs : 0 <= s)
    (Hk : 0 <= k <= Z.of_nat (size2 (data sg)) - s) :
  exists out tp',
    MaskTime.encodes mean (MaskFreq.mk 1 s (Some k) v) sg tp = Ok (out, tp') /\
    sr out = sr sg /\ hop_length out = hop_length sg /\
    shape (data out) = shape (data sg) /\
    rect (data out) /\
    forall (c f i : nat) (ch : list (list A)),
      cells (data sg) !! c = Some ch ->
      (f < size1 (data sg))%nat -> (i < size2 (data sg))%nat ->
      at3 (data out) c f i =
      if (k <=? Z.of_nat i) && (Z.of_nat i <? k + s)
      then Some (ifnone v
                   (mean (concat (transpose_rows (size2 (data sg)) ch))))
      else at3 (data sg) c f i.
Proof.
  pose proof (rect_transposed _ Hrect) as HrT.
  destruct (MaskFreq_one_mask mean s k v
              (set_data sg (transposed (data sg))) tp Hc Hs Hk) as (tp' & E).
  unfold MaskTime.encodes, bind. rewrite E. unfold ret.
  cbn [data set_data sr hop_length].
  set (T := transposed (data sg)) in *.
  set (mv := ifnone (option_map (replicate (size0 T)) v)
               (map (fun ch => mean (concat ch)) (cells T))) in *.
  set (U := MaskFreq.assign_band T (Z.to_nat k)
              (MaskFreq.make_mask (Z.to_nat s) (size2 T) mv)) in *.
  assert (HrU : rect U).
  { apply rect_assign_band; [exact HrT| |simpl; lia].
    apply mask_val_length. exact HrT. }
  eexists _, tp'. split; [reflexivity|].
  split; [reflexivity|]. split; [reflexivity|]. split; [reflexivity|].
  split; [now apply rect_transposed|].
  intros c f i ch Hch Hf Hi. cbn [data].
  assert (Hci : (c < size0 (data sg))%nat).
  { destruct (rect_elim _ Hrect) as [Hlen _]. rewrite <- Hlen.
    eapply lookup_lt_Some; eassumption. }
  change (data (set_data (set_data (set_data sg T) U) (transposed U)))
    with (transposed U).
  destruct (at3_transposed U c i f HrU Hci Hi Hf) as [-> _].
  assert (HchT : cells T !! c = Some (transpose_rows (size2 (data sg)) ch)).
  { unfold T, transposed. simpl cells. now rewrite lookup_map, Hch. }
  pose proof (mask_val_lookup mean v T c _ HrT HchT) as Hv.
  unfold U.
  rewrite (at3_assign_band T (Z.to_nat k) (Z.to_nat s) mv c i f _ _
             HrT ltac:(simpl; lia) HchT Hv Hi Hf).
  destruct (at3_transposed (data sg) c f i Hrect Hci Hf Hi) as [HT _].
  fold T in HT. rewrite HT.
  destruct (Nat.leb_spec (Z.to_nat k) i); destruct (Z.leb_spec k (Z.of_nat i));
    try lia; simpl; [|reflexivity].
  destruct (Nat.ltb_spec i (Z.to_nat k + Z.to_nat s));
    destruct (Z.ltb_spec (Z.of_nat i) (k + s)); try lia; reflexivity.
Qed.

Lemma MaskTime_fixed_start_band_witness :
  rect (data sample_sg) /\ size0 (data sample_sg) <> 0%nat /\ 0 <= 2 /\
  0 <= 1 <= Z.of_nat (size2 (data sample_sg)) - 2 /\
  exists out tp',
    MaskTime.encodes mean_Z (MaskFreq.mk 1 2 (Some 1) None) sample_sg []
    = Ok (out, tp') /\
    sr out = sr sample_sg /\ hop_length out = hop_length sample_sg /\
    shape (data out) = shape (data sample_sg) /\
    rect (data out) /\
    forall (c f i : nat) (ch : list (list Z)),
      cells (data sample_sg) !! c = Some ch ->
      (f < size1 (data sample_sg))%nat -> (i < size2 (data sample_sg))%nat ->
      at3 (data out) c f i =
      if (1 <=? Z.of_nat i) && (Z.of_nat i <? 1 + 2)
      then Some (ifnone None
                   (mean_Z (concat (transpose_rows (size2 (data sample_sg)) ch))))
      else at3 (data sample_sg) c f i.
Proof.
  assert (Hrect : rect (data sample_sg))
    by (split; [reflexivity|repeat constructor]).
  assert (Hc : size0 (data sample_sg) <> 0%nat) by (simpl; lia).
  assert (Hs : 0 <= 2) by lia.
  assert (Hk : 0 <= 1 <= Z.of_nat (size2 (data sample_sg)) - 2) by (simpl; lia).
  split; [exact Hrect|]. split; [exact Hc|]. split; [exact Hs|].
  split; [exact Hk|].
  exact (MaskTime_fixed_start_band mean_Z 2 1 None sample_sg [] Hrect Hc Hs Hk).
Defined.

Lemma transpose_rows_zip_cons {A} (m : nat) (r : list A) (T : list (list A)) :
  length r = length T ->
  transpose_rows (S m) (zip_with cons r T) = r :: transpose_rows m T.
Proof.
  revert T. induction r as [|a r IH]; intros [|t T] H; simpl in *;
    try discriminate; [reflexivity|].
  rewrite IH by lia. reflexivity.
Qed.

Lemma transpose_rows_empty_rows {A} (x : nat) :
  transpose_rows 0 (replicate x (@nil A)) = [].
Proof. destruct x; reflexivity. Qed.

Lemma transpose_rows_involutive {A} (x : nat) (rows : list (list A)) :
  (forall r, In r rows -> length r = x) ->
  transpose_rows (length rows) (transpose_rows x rows) = rows.
Proof.
  induction rows as [|r rs IH]; intros H; simpl.
  - apply transpose_rows_empty_rows.
  - rewrite transpose_rows_zip_cons.
    + f_equal. apply IH. intros r' Hr'. apply H. now right.
    + rewrite transpose_rows_length; [apply H; now left|].
      intros r' Hr'. apply H. now right.
Qed.

(** Transposing twice gives the tensor back. *)
Lemma transposed_involutive {A} (t : Tensor A) :
  rect t -> transposed (transposed t) = t.
Proof.
  intros Hr. destruct (rect_elim t Hr) as [_ Hall].
  destruct t as [c y x cs]. unfold transposed. simpl in *. f_equal.
  rewrite map_map. apply map_ext_In_id. intros ch Hch.
  destruct (Hall ch Hch) as [Hy Hrow]. rewrite <- Hy.
  now apply transpose_rows_involutive.
Qed.

(** X14: the two transpositions of MaskTime cancel.  With no mask to
    apply (num_masks <= 0), at least one channel and a size that does not
    exceed the number of time frames, MaskTime returns the spectrogram it
    was given, having consumed one draw. *)
Theorem MaskTime_no_mask_is_identity {A} (mean : list A -> A)
    (self : MaskFreq.t A) (sg : AudioSpectrogram A) (tp : tape)
    (Hrect : rect (data sg))
    (Hc : size0 (data sg) <> 0%nat)
    (Hn : MaskFreq.num_masks self <= 0)
    (Hsize : MaskFreq.size self <= Z.of_nat (size2 (data sg))) :
  MaskTime.encodes mean self sg tp = Ok (sg, drop 1 tp).
Proof.
  unfold MaskTime.encodes, bind.
  rewrite MaskFreq_encodes_unfold by exact Hc. cbv zeta.
  cbn [data set_data]. simpl size1.
  destruct (randint_ok 0 (Z.of_nat (size2 (data sg)) - MaskFreq.size self)
              tp ltac:(lia)) as (r & tp1 & Hr & _).
  rewrite Hr. apply randint_tape in Hr as ->.
  replace (Z.to_nat (MaskFreq.num_masks self)) with 0%nat by lia.
  simpl. unfold ret. cbn [data]. rewrite transposed_involutive by exact Hrect.
  now destruct sg.
Qed.

Lemma MaskTime_no_mask_is_identity_witness :
  let self := MaskFreq.mk 0 2 (Some 9) None in
  rect (data sample_sg) /\ size0 (data sample_sg) <> 0%nat /\
  MaskFreq.num_masks self <= 0 /\
  MaskFreq.size self <= Z.of_nat (size2 (data sample_sg)) /\
  MaskTime.encodes mean_Z self sample_sg [2%N; 3%N]
  = Ok (sample_sg, drop 1 [2%N; 3%N]).
Proof.
  intros self.
  assert (Hrect : rect (data sample_sg))
    by (split; [reflexivity|repeat constructor]).
  assert (Hc : size0 (data sample_sg) <> 0%nat) by (simpl; lia).
  assert (Hn : MaskFreq.num_masks self <= 0) by (simpl; lia).
  assert (Hsize : MaskFreq.size self <= Z.of_nat (size2 (data sample_sg)))
    by (simpl; lia).
  split; [exact Hrect|]. split; [exact Hc|]. split; [exact Hn|].
  split; [exact Hsize|].
  exact (MaskTime_no_mask_is_identity mean_Z self sample_sg [2%N; 3%N]
           Hrect Hc Hn Hsize).
Defined.

(** ** SGRoll: a circular shift, and how far it goes *)

Lemma length_roll_row {A} (k : Z) (row : list A) :
  length (roll_row k row) = length row.
Proof.
  unfold roll_row. rewrite length_app, length_drop, length_take. lia.
Qed.

Lemma rect_roll {A} (k : Z) (t : Tensor A) : rect t -> rect (roll k t).
Proof.
  intros Hr. destruct (rect_elim t Hr) as [Hlen Hall].
  unfold roll. apply rect_intro.
  - now rewrite length_map.
  - intros ch' Hch'. apply in_map_iff in Hch' as (ch & <- & Hch).
    destruct (Hall ch Hch) as [Hy Hrow]. split; [now rewrite length_map|].
    intros row' Hrow'. apply in_map_iff in Hrow' as (row & <- & Hin).
    rewrite length_roll_row. now apply Hrow.
Qed.

Lemma at3_roll {A} (k : Z) (t : Tensor A) (c f i : nat) :
  rect t -> (c < size0 t)%nat -> (f < size1 t)%nat -> (i < size2 t)%nat ->
  at3 (roll k t) c f i
  = at3 t c f (Z.to_nat ((Z.of_nat i - k) mod Z.of_nat (size2 t))).
Proof.
  intros Hr Hc Hf Hi. destruct (rect_elim t Hr) as [Hlen Hall].
  destruct (lookup_lt_is_Some_2 (cells t) c ltac:(lia)) as [ch Hch].
  destruct (Hall ch (In_lookup _ _ _ Hch)) as [Hy Hrow].
  destruct (lookup_lt_is_Some_2 ch f ltac:(lia)) as [row Hrowf].
  pose proof (Hrow row (In_lookup _ _ _ Hrowf)) as Hx.
  unfold at3, roll. simpl cells.
  rewrite lookup_map, Hch. simpl. rewrite lookup_map, Hrowf. simpl.
  rewrite lookup_roll_row by lia. now rewrite Hx.
Qed.

(** *** Bounds that survive the rounding *)

Lemma within_mul (a b : Q) (z : Z) :
  0 <= z -> within a z -> within b 1 -> within (a * b) z.
Proof.
  unfold within. simpl. rewrite Z.abs_mul, Pos2Z.inj_mul.
  pose proof (Z.abs_nonneg (Qnum a)). pose proof (Z.abs_nonneg (Qnum b)).
  pose proof (Pos2Z.is_pos (Qden a)). pose proof (Pos2Z.is_pos (Qden b)).
  intros Hz Ha Hb. nia.
Qed.

Lemma within_mul_le (a b : Q) (z N : Z) :
  0 <= z -> within a z -> 0 <= Qnum b ->
  z * Qnum b <= N * Zpos (Qden b) -> within (a * b) N.
Proof.
  unfold within. simpl. rewrite Z.abs_mul, Pos2Z.inj_mul.
  pose proof (Z.abs_nonneg (Qnum a)).
  pose proof (Pos2Z.is_pos (Qden a)). pose proof (Pos2Z.is_pos (Qden b)).
  intros Hz Ha Hb HN. rewrite (Z.abs_eq (Qnum b)) by exact Hb.
  apply Z.le_trans with (z * Zpos (Qden a) * Qnum b); nia.
Qed.

Lemma round64_nonneg (q : Q) : 0 <= Qnum q -> 0 <= Qnum (round64 q).
Proof.
  intros H. destruct (round64_sign q) as (m & Hm & ->).
  pose proof (Z.sgn_nonneg (Qnum q)). nia.
Qed.

Lemma round64_nonpos (q : Q) : Qnum q <= 0 -> Qnum (round64 q) <= 0.
Proof.
  intros H. destruct (round64_sign q) as (m & Hm & ->).
  pose proof (Z.sgn_nonpos (Qnum q)). nia.
Qed.

Lemma py_int_within (q : Q) (z : Z) :
  within q z -> Z.abs (py_int (PyFloat q)) <= z.
Proof.
  unfold within, py_int. intros H.
  pose proof (Pos2Z.is_pos (Qden q)) as Hd.
  destruct (Z.le_gt_cases 0 (Qnum q)) as [Hn|Hn].
  - pose proof (Z.quot_pos (Qnum q) (Zpos (Qden q)) Hn Hd).
    pose proof (Z.quot_le_upper_bound (Qnum q) (Zpos (Qden q)) z Hd
                  ltac:(lia)).
    lia.
  - pose proof (Z.quot_pos (- Qnum q) (Zpos (Qden q)) ltac:(lia) Hd).
    pose proof (Z.quot_le_upper_bound (- Qnum q) (Zpos (Qden q)) z Hd
                  ltac:(lia)).
    rewrite Z.quot_opp_l in * by lia. lia.
Qed.

Lemma py_int_nonneg (q : Q) : 0 <= Qnum q -> 0 <= py_int (PyFloat q).
Proof.
  intros H. unfold py_int. apply Z.quot_pos; lia.
Qed.

Lemma py_int_nonpos (q : Q) : Qnum q <= 0 -> py_int (PyFloat q) <= 0.
Proof.
  intros H. unfold py_int.
  pose proof (Z.quot_pos (- Qnum q) (Zpos (Qden q)) ltac:(lia) ltac:(lia)).
  rewrite Z.quot_opp_l in * by lia. lia.
Qed.

(** The shift computed for a direction of 1 or -1, a draw in [0, 1], a
    maximal fraction in [0, 1] and a width below 2^53: every partial
    product stays within the width, so nothing overflows, and the sign
    and the bounds of the exact product survive the roundings. *)
Lemma roll_by_bounds (w : nat) (r pct : Q) (d : Z) :
  Z.of_nat w < 2 ^ 53 ->
  0 <= Qnum r <= Zpos (Qden r) ->
  (0 <= pct <= 1)%Q ->
  d = 1 \/ d = -1 ->
  SGRoll.shift_overflows w r pct (PyInt d) = false /\
  (d = 1 -> 0 <= SGRoll.roll_by w r pct (PyInt d)) /\
  (d = -1 -> SGRoll.roll_by w r pct (PyInt d) <= 0) /\
  (forall N : Z,
     (inject_Z (Z.of_nat w) * pct <= inject_Z N)%Q ->
     Z.abs (SGRoll.roll_by w r pct (PyInt d)) <= N) /\
  Z.abs (SGRoll.roll_by w r pct (PyInt d)) <= Z.of_nat w.
Proof.
  intros Hw Hr [Hp0 Hp1] Hd.
  assert (HW : 0 <= Z.of_nat w < 2 ^ 53) by lia.
  assert (Hpn : 0 <= Qnum pct <= Zpos (Qden pct))
    by (unfold Qle in Hp0, Hp1; simpl in Hp0, Hp1; lia).
  unfold SGRoll.shift_overflows, SGRoll.roll_by, SGRoll.partial_shift.
  set (fw := py_float (PyInt (Z.of_nat w))).
  set (fd := py_float (PyInt d)).
  set (p1 := fmul fw r). set (p2 := fmul p1 pct). set (p3 := fmul p2 fd).
  (* the converted width *)
  assert (Wfw : within fw (Z.of_nat w)).
  { apply round64_within; [exact HW|]. unfold within. simpl. lia. }
  assert (Sfw : 0 <= Qnum fw) by (apply round64_nonneg; simpl; lia).
  (* w * r *)
  assert (W1 : within p1 (Z.of_nat w)).
  { apply round64_within; [exact HW|]. apply within_mul; [lia|exact Wfw|].
    unfold within. lia. }
  assert (S1 : 0 <= Qnum p1) by (apply round64_nonneg; simpl; nia).
  (* ... * max_shift_pct *)
  assert (W2 : forall N, 0 <= N < 2 ^ 53 ->
                         Z.of_nat w * Qnum pct <= N * Zpos (Qden pct) ->
                         within p2 N).
  { intros N HN Hle. apply round64_within; [exact HN|].
    apply (within_mul_le p1 pct (Z.of_nat w)); [lia|exact W1|lia|exact Hle]. }
  assert (S2 : 0 <= Qnum p2) by (apply round64_nonneg; simpl; nia).
  (* ... * direction *)
  assert (Wfd : within fd 1).
  { apply round64_within; [lia|]. unfold within. simpl.
    destruct Hd as [-> | ->]; simpl; lia. }
  assert (W3 : forall N, 0 <= N < 2 ^ 53 ->
                         Z.of_nat w * Qnum pct <= N * Zpos (Qden pct) ->
                         within p3 N).
  { intros N HN Hle. apply round64_within; [exact HN|].
    apply within_mul; [lia|now apply W2|exact Wfd]. }
  assert (Hself : Z.of_nat w * Qnum pct <= Z.of_nat w * Zpos (Qden pct))
    by nia.
  split; [|split; [|split; [|split]]].
  - rewrite (within_in_range p2 (Z.of_nat w)) by (try apply W2; lia).
    rewrite (within_in_range p3 (Z.of_nat w)) by (try apply W3; lia).
    reflexivity.
  - intros Ed. apply py_int_nonneg, round64_nonneg.
    assert (0 <= Qnum fd) by (apply round64_nonneg; simpl; lia).
    change (Qnum (p2 * fd)) with (Qnum p2 * Qnum fd). nia.
  - intros Ed. apply py_int_nonpos, round64_nonpos.
    assert (Qnum fd <= 0) by (apply round64_nonpos; simpl; lia).
    change (Qnum (p2 * fd)) with (Qnum p2 * Qnum fd). nia.
  - intros N HN.
    assert (HN' : Z.of_nat w * Qnum pct <= N * Zpos (Qden pct)).
    { unfold Qle in HN. simpl in HN. lia. }
    assert (0 <= N).
    { pose proof (Pos2Z.is_pos (Qden pct)). nia. }
    destruct (Z.lt_ge_cases N (2 ^ 53)) as [Hs|Hb].
    + apply py_int_within, W3; lia.
    + apply Z.le_trans with (Z.of_nat w); [|lia].
      apply py_int_within, W3; lia.
  - apply py_int_within, W3; lia.
Qed.

(** The result of [encodes], with the direction in force (the
    configured one, or the one drawn for a direction of 0) and the
    number drawn by [random.random]. *)
Lemma SGRoll_encodes_resolved {A} (self : SGRoll.t)
    (sg : AudioSpectrogram A) (tp : tape) :
  exists (dir : pynum) (r : Q) tp1 tp',
    (if py_is_zero (SGRoll.direction self)
     then exists d, random_choice_dir tp = Ok (d, tp1) /\ dir = PyInt d
     else dir = SGRoll.direction self /\ tp1 = tp) /\
    random_random tp1 = Ok (r, tp') /\
    0 <= Qnum r <= Zpos (Qden r) /\
    SGRoll.encodes self sg tp =
    if SGRoll.shift_overflows (size2 (data sg)) r
         (SGRoll.max_shift_pct self) dir
    then Raise OverflowError
    else Ok (set_data sg
               (roll (SGRoll.roll_by (size2 (data sg)) r
                        (SGRoll.max_shift_pct self) dir)
                     (data sg)), tp').
Proof.
  assert (Hrr : forall t, exists r t',
            random_random t = Ok (r, t') /\ 0 <= Qnum r <= Zpos (Qden r)).
  { intros t. unfold random_random, bind, draw, ret.
    destruct t as [|n t]; eexists _, _; (split; [reflexivity|]);
      cbn [Qnum Qden];
      match goal with |- context [?a mod ?m] =>
        pose proof (Z.mod_pos_bound a m ltac:(lia)) end; lia. }
  unfold SGRoll.encodes, bind.
  destruct (py_is_zero (SGRoll.direction self)).
  - assert (Hc : exists d t1, random_choice_dir tp = Ok (d, t1)).
    { unfold random_choice_dir, bind, draw, ret. destruct tp; eauto. }
    destruct Hc as (d & t1 & Hd). rewrite Hd. unfold ret at 1.
    destruct (Hrr t1) as (r & t' & Er & Br). rewrite Er.
    exists (PyInt d), r, t1, t'.
    split; [eauto|]. split; [exact Er|]. split; [exact Br|].
    unfold raise, ret.
    now destruct (SGRoll.shift_overflows _ _ _ _).
  - unfold ret at 1.
    destruct (Hrr tp) as (r & t' & Er & Br). rewrite Er.
    exists (SGRoll.direction self), r, tp, t'.
    split; [auto|]. split; [exact Er|]. split; [exact Br|].
    unfold raise, ret.
    now destruct (SGRoll.shift_overflows _ _ _ _).
Qed.

Lemma random_choice_dir_unit tp d tp1 :
  random_choice_dir tp = Ok (d, tp1) -> d = 1 \/ d = -1.
Proof.
  unfold random_choice_dir, bind, draw, ret.
  destruct tp as [|n tp]; intros [= <- <-]; [|destruct (N.even n)]; auto.
Qed.

(** X15: for a direction of -1, 0 or 1, a max_shift_pct in [0, 1] and
    fewer than 2^53 time frames, SGRoll never raises.  It returns the
    input rolled by some amount [k] along time: the shape and the
    settings are kept and frame [i] of the output is frame
    [(i - k) mod w] of the input, [w] being the number of frames, so that
    frames pushed past one end come back at the other. *)
Theorem SGRoll_circular_shift {A} (self : SGRoll.t)
    (sg : AudioSpectrogram A) (tp : tape)
    (Hrect : rect (data sg))
    (Hpct : (0 <= SGRoll.max_shift_pct self <= 1)%Q)
    (Hw : Z.of_nat (size2 (data sg)) < 2 ^ 53)
    (Hdir : SGRoll.direction self = PyInt (-1)
            \/ SGRoll.direction self = PyInt 0
            \/ SGRoll.direction self = PyInt 1) :
  exists (k : Z) tp',
    SGRoll.encodes self sg tp = Ok (set_data sg (roll k (data sg)), tp') /\
    shape (roll k (data sg)) = shape (data sg) /\
    rect (roll k (data sg)) /\
    forall c f i : nat,
      (c < size0 (data sg))%nat -> (f < size1 (data sg))%nat ->
      (i < size2 (data sg))%nat ->
      at3 (roll k (data sg)) c f i
      = at3 (data sg) c f
          (Z.to_nat ((Z.of_nat i - k) mod Z.of_nat (size2 (data sg)))).
Proof.
  destruct (SGRoll_encodes_resolved self sg tp)
    as (dir & r & tp1 & tp' & Hdir' & _ & Br & E).
  assert (Hd : exists d, dir = PyInt d /\ (d = 1 \/ d = -1)).
  { destruct Hdir as [Ed|[Ed|Ed]]; rewrite Ed in Hdir'; simpl in Hdir'.
    - destruct Hdir' as [-> _]. eauto.
    - destruct Hdir' as (d & Hc & ->).
      eauto using random_choice_dir_unit.
    - destruct Hdir' as [-> _]. eauto. }
  destruct Hd as (d & -> & Hd).
  destruct (roll_by_bounds (size2 (data sg)) r (SGRoll.max_shift_pct self) d
              Hw Br Hpct Hd) as (Hov & _).
  rewrite Hov in E.
  eexists _, tp'. split; [exact E|]. split; [reflexivity|].
  split; [now apply rect_roll|].
  intros c f i Hc Hf Hi. now apply at3_roll.
Qed.

Lemma SGRoll_circular_shift_witness :
  let self := SGRoll.mk (1 # 2) (PyInt (-1)) in
  rect (data sample_sg) /\
  (0 <= SGRoll.max_shift_pct self <= 1)%Q /\
  Z.of_nat (size2 (data sample_sg)) < 2 ^ 53 /\
  (SGRoll.direction self = PyInt (-1)
   \/ SGRoll.direction self = PyInt 0
   \/ SGRoll.direction self = PyInt 1) /\
  exists (k : Z) tp',
    SGRoll.encodes self sample_sg [4503599627370496%N]
    = Ok (set_data sample_sg (roll k (data sample_sg)), tp') /\
    shape (roll k (data sample_sg)) = shape (data sample_sg) /\
    rect (roll k (data sample_sg)) /\
    forall c f i : nat,
      (c < size0 (data sample_sg))%nat -> (f < size1 (data sample_sg))%nat ->
      (i < size2 (data sample_sg))%nat ->
      at3 (roll k (data sample_sg)) c f i
      = at3 (data sample_sg) c f
          (Z.to_nat ((Z.of_nat i - k) mod Z.of_nat (size2 (data sample_sg)))).
Proof.
  intros self.
  assert (Hrect : rect (data sample_sg))
    by (split; [reflexivity|repeat constructor]).
  assert (Hpct : (0 <= SGRoll.max_shift_pct self <= 1)%Q)
    by (split; unfold Qle; simpl; lia).
  assert (Hw : Z.of_nat (size2 (data sample_sg)) < 2 ^ 53)
    by (simpl; lia).
  assert (Hdir : SGRoll.direction self = PyInt (-1)
                 \/ SGRoll.direction self = PyInt 0
                 \/ SGRoll.direction self = PyInt 1) by (left; reflexivity).
  split; [exact Hrect|]. split; [exact Hpct|]. split; [exact Hw|].
  split; [exact Hdir|].
  exact (SGRoll_circular_shift self sample_sg [4503599627370496%N]
           Hrect Hpct Hw Hdir).
Defined.

(** Outside those bounds the product can leave the float range: on the
    4 frames of the sample, with the draw 1/2 and max_shift_pct = 2^1023,
    the product is 2^1024, an infinity for the floats, and [int] raises
    on it. *)
Example SGRoll_overflow_sample :
  SGRoll.encodes (SGRoll.mk (inject_Z (2 ^ 1023)) (PyInt 1)) sample_sg
    [4503599627370496%N]
  = Raise OverflowError.
Proof. reflexivity. Qed.

(** X16: how far SGRoll shifts, and which way.  For a direction of -1,
    0 or 1, a max_shift_pct in [0, 1] and fewer than 2^53 time frames,
    [encodes] rolls its input by
    [k = int(w * r * max_shift_pct * d)], where [w] is the number of time
    frames, [r] the number drawn by [random.random] and [d] the
    direction in force: the configured one, or for a direction of 0 the
    one drawn by [random.choice] just before.  [d] is 1 or -1; [k] is
    never negative for [d = 1] (frames move to the right) and never
    positive for [d = -1], so that for a direction of 0 the sign is that
    of the drawn direction; [|k|] is at most any integer that
    [w * max_shift_pct] does not exceed, and at most [w]. *)
Theorem SGRoll_shift_bounds {A} (self : SGRoll.t)
    (sg : AudioSpectrogram A) (tp : tape)
    (Hpct : (0 <= SGRoll.max_shift_pct self <= 1)%Q)
    (Hw : Z.of_nat (size2 (data sg)) < 2 ^ 53)
    (Hdir : SGRoll.direction self = PyInt (-1)
            \/ SGRoll.direction self = PyInt 0
            \/ SGRoll.direction self = PyInt 1) :
  exists (d : Z) (r : Q) tp1 tp',
    (if py_is_zero (SGRoll.direction self)
     then random_choice_dir tp = Ok (d, tp1)
     else SGRoll.direction self = PyInt d /\ tp1 = tp) /\
    random_random tp1 = Ok (r, tp') /\
    let w := size2 (data sg) in
    let k := SGRoll.roll_by w r (SGRoll.max_shift_pct self) (PyInt d) in
    SGRoll.encodes self sg tp = Ok (set_data sg (roll k (data sg)), tp') /\
    (d = 1 \/ d = -1) /\
    (d = 1 -> 0 <= k) /\
    (d = -1 -> k <= 0) /\
    (forall N : Z,
       (inject_Z (Z.of_nat w) * SGRoll.max_shift_pct self <= inject_Z N)%Q ->
       Z.abs k <= N) /\
    Z.abs k <= Z.of_nat w.
Proof.
  destruct (SGRoll_encodes_resolved self sg tp)
    as (dir & r & tp1 & tp' & Hdir' & Er & Br & E).
  assert (Hd : exists d,
             dir = PyInt d /\ (d = 1 \/ d = -1) /\
             (if py_is_zero (SGRoll.direction self)
              then random_choice_dir tp = Ok (d, tp1)
              else SGRoll.direction self = PyInt d /\ tp1 = tp)).
  { destruct Hdir as [Ed|[Ed|Ed]]; rewrite Ed in Hdir' |- *;
      simpl in Hdir' |- *.
    - destruct Hdir' as [-> ->]. exists (-1). auto.
    - destruct Hdir' as (d & Hc & ->). exists d.
      eauto using random_choice_dir_unit.
    - destruct Hdir' as [-> ->]. exists 1. auto. }
  destruct Hd as (d & -> & Hd & Hpin).
  destruct (roll_by_bounds (size2 (data sg)) r (SGRoll.max_shift_pct self) d
              Hw Br Hpct Hd) as (Hov & B1 & B2 & B3 & B4).
  rewrite Hov in E.
  exists d, r, tp1, tp'. split; [exact Hpin|]. split; [exact Er|].
  cbv zeta. split; [exact E|]. split; [exact Hd|].
  split; [exact B1|]. split; [exact B2|]. split; [exact B3|exact B4].
Qed.

Lemma SGRoll_shift_bounds_witness :
  let self := SGRoll.mk (1 # 2) (PyInt 0) in
  let tp := [3%N; 4503599627370496%N] in
  (0 <= SGRoll.max_shift_pct self <= 1)%Q /\
  Z.of_nat (size2 (data sample_sg)) < 2 ^ 53 /\
  (SGRoll.direction self = PyInt (-1)
   \/ SGRoll.direction self = PyInt 0
   \/ SGRoll.direction self = PyInt 1) /\
  exists (d : Z) (r : Q) tp1 tp',
    (if py_is_zero (SGRoll.direction self)
     then random_choice_dir tp = Ok (d, tp1)
     else SGRoll.direction self = PyInt d /\ tp1 = tp) /\
    random_random tp1 = Ok (r, tp') /\
    let w := size2 (data sample_sg) in
    let k := SGRoll.roll_by w r (SGRoll.max_shift_pct self) (PyInt d) in
    SGRoll.encodes self sample_sg tp
    = Ok (set_data sample_sg (roll k (data sample_sg)), tp') /\
    (d = 1 \/ d = -1) /\
    (d = 1 -> 0 <= k) /\
    (d = -1 -> k <= 0) /\
    (forall N : Z,
       (inject_Z (Z.of_nat w) * SGRoll.max_shift_pct self <= inject_Z N)%Q ->
       Z.abs k <= N) /\
    Z.abs k <= Z.of_nat w.
Proof.
  intros self tp.
  assert (Hpct : (0 <= SGRoll.max_shift_pct self <= 1)%Q)
    by (split; unfold Qle; simpl; lia).
  assert (Hw : Z.of_nat (size2 (data sample_sg)) < 2 ^ 53)
    by (simpl; lia).
  assert (Hdir : SGRoll.direction self = PyInt (-1)
                 \/ SGRoll.direction self = PyInt 0
                 \/ SGRoll.direction self = PyInt 1) by (right; left; reflexivity).
  split; [exact Hpct|]. split; [exact Hw|]. split; [exact Hdir|].
  exact (SGRoll_shift_bounds self sample_sg tp Hpct Hw Hdir).
Defined.

(** ** Delta: no channel at all *)

(** X17: on a spectrogram without any channel, Delta raises inside
    torch, on the concatenation of an empty list of stacks, whatever the
    window width and the number of time frames: the width check of
    [_torchdelta] runs once per channel and so never runs, and librosa's
    delta is never called. *)
Theorem Delta_no_channel_raises {A}
    (librosa_delta : Z -> Z -> Plane A -> result (Plane A)) (width : Z)
    (sg : AudioSpectrogram A)
    (Hrect : rect (data sg))
    (Hc : size0 (data sg) = 0%nat) :
  Delta.encodes librosa_delta width sg = Raise RuntimeError.
Proof.
  destruct (rect_elim _ Hrect) as [Hlen _].
  unfold Delta.encodes, planes.
  destruct (cells (data sg)) as [|ch cs]; [reflexivity|].
  simpl in Hlen. lia.
Qed.

Lemma Delta_no_channel_raises_witness :
  let sg := mkSpectrogram 16000 160 (mkTensor 0 64 2 ([] : list (list (list Z)))) in
  rect (data sg) /\ size0 (data sg) = 0%nat /\
  Delta.encodes flat_delta 9 sg = Raise RuntimeError.
Proof.
  intros sg.
  assert (Hrect : rect (data sg)) by (split; [reflexivity|constructor]).
  assert (Hc : size0 (data sg) = 0%nat) by reflexivity.
  split; [exact Hrect|]. split; [exact Hc|].
  exact (Delta_no_channel_raises flat_delta 9 sg Hrect Hc).
Defined.
